(* ===================================================================== *)
(* hostname-ip-server (src/server.ts): tool-call handler and the session  *)
(* table of the streamable-HTTP transport, as a shallow embedding.        *)
(* ===================================================================== *)

From Stdlib Require Import String Ascii NArith ZArith Lia.
From stdpp Require Import base decidable option list strings.

Open Scope string_scope.
Open Scope list_scope.
Set Warnings "-register-all".

(* --------------------------------------------------------------------- *)
(* 1. JavaScript values and completions                                   *)
(* --------------------------------------------------------------------- *)

(** A thrown value, as the catch clauses of server.ts inspect it:
    [error instanceof Error ? error.message : String(error)].  An [Error]
    instance carries its [message]; any other thrown value is represented
    by what [String(error)] yields for it. *)
Inductive js_exn :=
| ErrorObject (message : string)
| OtherValue (as_string : string).

(** The result of evaluating a block: it returns normally or throws. *)
Inductive completion (A : Type) :=
| Normal (a : A)
| Throw (e : js_exn).
Arguments Normal {A} a.
Arguments Throw {A} e.

Definition bind {A B} (c : completion A) (k : A → completion B) : completion B :=
  match c with
  | Normal a => k a
  | Throw e => Throw e
  end.

Notation "'let!' x ':=' c 'in' k" := (bind c (fun x => k))
  (at level 10, x name, c at level 100, k at level 200).

(** [try { body } catch (error) { handler }] *)
Definition try_catch {A} (body : completion A) (handler : js_exn → completion A)
  : completion A :=
  match body with
  | Normal a => Normal a
  | Throw e => handler e
  end.

(** A string in a boolean context: only the empty string is falsy. *)
Definition truthy_string (s : string) : bool :=
  match s with
  | EmptyString => false
  | String _ _ => true
  end.

(** [string | undefined] (or [string | null]) in a boolean context. *)
Definition truthy_opt (o : option string) : bool :=
  match o with
  | Some s => truthy_string s
  | None => false
  end.

(* --------------------------------------------------------------------- *)
(* 2. JSON.stringify(value, null, 2) on the one-key objects of server.ts  *)
(* --------------------------------------------------------------------- *)

Definition dquote : ascii := ascii_of_nat 34.
Definition backslash : ascii := ascii_of_nat 92.
Definition LF : ascii := ascii_of_nat 10.

Definition hex_char (n : N) : ascii :=
  match n with
  | 0 => "0" | 1 => "1" | 2 => "2" | 3 => "3" | 4 => "4" | 5 => "5"
  | 6 => "6" | 7 => "7" | 8 => "8" | 9 => "9" | 10 => "a" | 11 => "b"
  | 12 => "c" | 13 => "d" | 14 => "e" | _ => "f"
  end%N%char.

(** QuoteJSONString on one code unit: the two-character escapes, the
    [\u00xx] form for the other control characters, the character itself
    otherwise.  Strings are read as sequences of code units below 256. *)
Definition json_escape_char (c : ascii) : string :=
  let n := N_of_ascii c in
  if (n =? 8)%N then String backslash "b"
  else if (n =? 9)%N then String backslash "t"
  else if (n =? 10)%N then String backslash "n"
  else if (n =? 12)%N then String backslash "f"
  else if (n =? 13)%N then String backslash "r"
  else if (n =? 34)%N then String backslash (String dquote EmptyString)
  else if (n =? 92)%N then String backslash (String backslash EmptyString)
  else if (n <? 32)%N then
    String backslash
      (String "u" (String "0" (String "0"
         (String (hex_char (n / 16)) (String (hex_char (n mod 16)) EmptyString)))))
  else String c EmptyString.

Fixpoint json_escape (s : string) : string :=
  match s with
  | EmptyString => EmptyString
  | String c rest => json_escape_char c +:+ json_escape rest
  end.

Definition json_quote (s : string) : string :=
  String dquote (json_escape s +:+ String dquote EmptyString).

(** [JSON.stringify({ key: value }, null, 2)] for a string [value]. *)
Definition JSON_stringify (key value : string) : string :=
  "{" +:+ String LF ("  " +:+ json_quote key +:+ ": " +:+ json_quote value
      +:+ String LF "}").

Definition hex_value (c : ascii) : N :=
  let n := N_of_ascii c in
  if (48 <=? n)%N && (n <=? 57)%N then n - 48
  else if (97 <=? n)%N && (n <=? 102)%N then n - 87
  else 0.

(** What a reader of JSON text recovers from the inside of a string
    literal: the characters up to the first quote that is not escaped.
    It is the yardstick against which [json_escape] is shown to lose
    nothing. *)
Fixpoint json_read (s : string) : string :=
  match s with
  | EmptyString => EmptyString
  | String c rest =>
      if (N_of_ascii c =? 34)%N then EmptyString
      else if (N_of_ascii c =? 92)%N then
        match rest with
        | EmptyString => EmptyString
        | String d rest1 =>
            if (N_of_ascii d =? 98)%N then String (ascii_of_nat 8) (json_read rest1)
            else if (N_of_ascii d =? 116)%N then String (ascii_of_nat 9) (json_read rest1)
            else if (N_of_ascii d =? 110)%N then String (ascii_of_nat 10) (json_read rest1)
            else if (N_of_ascii d =? 102)%N then String (ascii_of_nat 12) (json_read rest1)
            else if (N_of_ascii d =? 114)%N then String (ascii_of_nat 13) (json_read rest1)
            else if (N_of_ascii d =? 117)%N then
              match rest1 with
              | String _ (String _ (String h (String l rest2))) =>
                  String (ascii_of_N (16 * hex_value h + hex_value l)) (json_read rest2)
              | _ => EmptyString
              end
            else String d (json_read rest1)
        end
      else String c (json_read rest)
  end.

(* --------------------------------------------------------------------- *)
(* 3. The CallToolRequest handler (createServer)                          *)
(* --------------------------------------------------------------------- *)

Module Tools.

(** os.NetworkInterfaceInfo, the three fields the handler reads. *)
Record NetworkInterfaceInfo := {
  address : string;
  family : string;
  internal : bool
}.

(** The object returned by [os.networkInterfaces()], in the order in which
    [for (const interfaceName in interfaces)] visits its properties; a
    property value may be [undefined] (NodeJS.Dict). *)
Definition Interfaces := list (string * option (list NetworkInterfaceInfo)).

(** The two OS queries the handler performs; each may throw. *)
Record OS := {
  os_hostname : completion string;
  os_networkInterfaces : completion Interfaces
}.

(** The arguments of a call, unused by both tools. *)
Inductive json :=
| JNull
| JBool (b : bool)
| JNumber (z : Z)
| JString (s : string)
| JArray (items : list json)
| JObject (fields : list (string * json)).

Record CallToolRequest := {
  name : string;
  arguments : option json
}.

Record TextContent := {
  type : string;
  text : string
}.

(** [isError] is [true] when the result carries [isError: true] and
    [false] when the property is absent. *)
Record CallToolResult := {
  content : list TextContent;
  isError : bool
}.

Definition text_result (t : string) (err : bool) : CallToolResult :=
  {| content := [ {| type := "text"; text := t |} ]; isError := err |}.

(** Lines 84-89: the inner [for ... of] with its [break]. *)
Fixpoint scan_addresses (addresses : list NetworkInterfaceInfo)
    (ipAddress : option string) : option string :=
  match addresses with
  | [] => ipAddress
  | addr :: rest =>
      if bool_decide (family addr = "IPv4") && negb (internal addr)
      then Some (address addr)
      else scan_addresses rest ipAddress
  end.

(** Lines 81-94: the outer [for ... in]; [ipAddress] is the loop-carried
    variable, and the outer [break] is taken when it is truthy. *)
Fixpoint scan_interfaces (interfaces : Interfaces) (ipAddress : option string)
    : option string :=
  match interfaces with
  | [] => ipAddress
  | (_, addresses) :: rest =>
      match addresses with
      | Some addrs =>
          let ipAddress' := scan_addresses addrs ipAddress in
          if truthy_opt ipAddress' then ipAddress'
          else scan_interfaces rest ipAddress'
      | None => scan_interfaces rest ipAddress
      end
  end.

Definition no_external_ipv4 : string := "No external IPv4 address found".

(** Lines 63-124: the [switch] inside the [try]. *)
Definition call_tool_switch (request : CallToolRequest) (os : OS)
    : completion CallToolResult :=
  if bool_decide (name request = "get_hostname") then
    let! hostname := os_hostname os in
    Normal (text_result (JSON_stringify "hostname" hostname) false)
  else if bool_decide (name request = "get_ip_address") then
    let! interfaces := os_networkInterfaces os in
    let ipAddress := scan_interfaces interfaces None in
    if negb (truthy_opt ipAddress) then
      Normal (text_result (JSON_stringify "error" no_external_ipv4) true)
    else
      Normal (text_result (JSON_stringify "ipAddress" (default EmptyString ipAddress)) false)
  else
    Throw (ErrorObject ("Unknown tool: " +:+ name request)).

(** Lines 126-127. *)
Definition error_message (error : js_exn) : string :=
  match error with
  | ErrorObject message => message
  | OtherValue s => s
  end.

(** Lines 59-138: the handler registered for CallToolRequestSchema. *)
Definition call_tool (request : CallToolRequest) (os : OS)
    : completion CallToolResult :=
  try_catch (call_tool_switch request os)
    (fun error =>
       let errorMessage := error_message error in
       Normal (text_result (JSON_stringify "error" errorMessage) true)).

(** The selection rule in the words of the specification: interfaces in
    reported order, addresses in reported order within each, first address
    that is IPv4 and not internal. *)
Definition qualifies (a : NetworkInterfaceInfo) : bool :=
  bool_decide (family a = "IPv4") && negb (internal a).

Definition all_addresses (interfaces : Interfaces) : list NetworkInterfaceInfo :=
  concat (map (fun p => default [] (snd p)) interfaces).

Definition spec_first_external_ipv4 (interfaces : Interfaces) : option string :=
  address <$> head (filter (fun a => qualifies a = true) (all_addresses interfaces)).

(** Every address that the rule can select is a non-empty text, as the
    textual form of an IPv4 address always is. *)
Definition qualifying_nonempty (interfaces : Interfaces) : bool :=
  forallb (λ a, implb (qualifies a) (truthy_string (address a)))
          (all_addresses interfaces).

(** Lines 33-56: the handler registered for ListToolsRequestSchema. *)
Record InputSchema := {
  schema_type : string;
  properties : list (string * json);
  required : list string
}.

Record Tool := {
  tool_name : string;
  description : string;
  inputSchema : InputSchema
}.

Definition list_tools : list Tool :=
  [ {| tool_name := "get_hostname";
       description := "Returns the hostname of the machine where the server is running";
       inputSchema := {| schema_type := "object"; properties := []; required := [] |} |};
    {| tool_name := "get_ip_address";
       description :=
         "Returns the primary IP address of the machine where the server is running";
       inputSchema := {| schema_type := "object"; properties := []; required := [] |} |} ].

(** The first qualifying address of one interface, and, over all
    interfaces in order, the first such candidate that is a non-empty
    text. *)
Definition candidate (addresses : option (list NetworkInterfaceInfo)) : option string :=
  addresses ≫= λ addrs, address <$> head (filter (λ a, qualifies a = true) addrs).

Definition selected (interfaces : Interfaces) : option string :=
  head (filter (λ a, truthy_string a = true)
          (omap (M := list) (λ p, candidate (snd p)) interfaces)).

(** An interface whose first qualifying address is the empty text, followed
    by ordinary ones. *)
Definition odd_interfaces : Interfaces :=
  [ ("tun0", Some [ {| address := EmptyString; family := "IPv4"; internal := false |};
                    {| address := "10.8.0.2"; family := "IPv4"; internal := false |} ]);
    ("eth0", Some [ {| address := "192.168.1.20"; family := "IPv4"; internal := false |} ]) ].

(** A host with a loopback interface and one wired interface. *)
Definition example_interfaces : Interfaces :=
  [ ("lo", Some [ {| address := "127.0.0.1"; family := "IPv4"; internal := true |};
                  {| address := "::1"; family := "IPv6"; internal := true |} ]);
    ("eth0", Some [ {| address := "fe80::1"; family := "IPv6"; internal := false |};
                    {| address := "192.168.1.20"; family := "IPv4"; internal := false |};
                    {| address := "10.0.0.7"; family := "IPv4"; internal := false |} ]) ].

Definition example_os : OS :=
  {| os_hostname := Normal "build-host";
     os_networkInterfaces := Normal example_interfaces |}.

Definition failing_os : OS :=
  {| os_hostname := Throw (ErrorObject "uv_os_gethostname returned ENOSYS");
     os_networkInterfaces := Throw (ErrorObject "uv_interface_addresses returned EMFILE") |}.

End Tools.

(* --------------------------------------------------------------------- *)
(* 4. The HTTP binding (startHttpServer)                                  *)
(* --------------------------------------------------------------------- *)

Module Http.

(** [randomUUID()] of node:crypto, as a function of the random bits it
    draws: 32 lower-case hexadecimal digits in groups of 8-4-4-4-12, the
    version digit fixed to 4 and the variant digit in 8..b. *)
Definition nibble (entropy : N) (i : N) : N :=
  N.land (N.shiftr entropy (4 * i)) 15.

Fixpoint hex_run (entropy : N) (first : N) (count : nat) : string :=
  match count with
  | O => EmptyString
  | S n => String (hex_char (nibble entropy first)) (hex_run entropy (N.succ first) n)
  end.

Definition randomUUID (entropy : N) : string :=
  hex_run entropy 0 8 +:+ "-" +:+ hex_run entropy 8 4 +:+ "-"
  +:+ String "4" (hex_run entropy 12 3) +:+ "-"
  +:+ String (hex_char (8 + nibble entropy 15 mod 4)) (hex_run entropy 16 3) +:+ "-"
  +:+ hex_run entropy 19 12.

(** Transports are objects with identity: a location in [heap]. *)
Definition loc := nat.

(** StreamableHTTPServerTransport, the one field server.ts reads:
    [transport.sessionId], undefined until the handshake. *)
Record Transport := {
  sessionId : option string
}.

(** What [transports[key]] can evaluate to.  [transports] is created as the
    object literal [{}], so a key that is not an own property is looked up
    on Object.prototype. *)
Inductive js_value :=
| VTransport (l : loc)
| VInherited (property : string)
| VUndefined.

Definition object_prototype_names : list string :=
  [ "constructor"; "__defineGetter__"; "__defineSetter__"; "hasOwnProperty";
    "__lookupGetter__"; "__lookupSetter__"; "isPrototypeOf";
    "propertyIsEnumerable"; "toString"; "valueOf"; "__proto__";
    "toLocaleString" ].

(** Own properties, in insertion order (the order of [for ... in] for keys
    that are not array indices). *)
Fixpoint own_get (o : list (string * loc)) (key : string) : option loc :=
  match o with
  | [] => None
  | (k, l) :: rest => if bool_decide (k = key) then Some l else own_get rest key
  end.

Definition js_get (o : list (string * loc)) (key : string) : js_value :=
  match own_get o key with
  | Some l => VTransport l
  | None =>
      if bool_decide (key ∈ object_prototype_names) then VInherited key
      else VUndefined
  end.

Definition js_truthy (v : js_value) : bool :=
  match v with
  | VUndefined => false
  | _ => true
  end.

(** [o[key] = l]: overwrite in place, or append a new own property. *)
Fixpoint js_set (o : list (string * loc)) (key : string) (l : loc)
    : list (string * loc) :=
  match o with
  | [] => [(key, l)]
  | (k, l') :: rest =>
      if bool_decide (k = key) then (k, l) :: rest
      else (k, l') :: js_set rest key l
  end.

(** [delete o[key]] *)
Definition js_delete (o : list (string * loc)) (key : string)
    : list (string * loc) :=
  filter (λ p, p.1 ≠ key) o.

Definition keys (o : list (string * loc)) : list string := o.*1.

(** The state startHttpServer closes over: the transport objects created so
    far and the [transports] record.  Each handler below is taken as one
    uninterrupted run: what another handler could do to the record while
    this one is suspended at an [await] is not part of the model. *)
Record Server := {
  heap : list Transport;
  transports : list (string * loc)
}.

Definition initial : Server := {| heap := []; transports := [] |}.

Definition with_transports (st : Server) (o : list (string * loc)) : Server :=
  {| heap := heap st; transports := o |}.

(** Bodies written by server.ts itself. *)
Inductive body :=
| JsonRpcError (code : Z) (message : string)
| PlainText (s : string).

(** What a handler does, in order. *)
Inductive action :=
| ANew (l : loc)                          (* new StreamableHTTPServerTransport *)
| AConnect (l : loc)                      (* createServer(); server.connect(transport) *)
| AHandle (l : loc)                       (* transport.handleRequest(req, res, ...) *)
| ARegister (sid : string) (l : loc)      (* transports[sid] = transport *)
| ADeliver (l : loc)                      (* the connected engine receives the call *)
| AUnregister (sid : string)              (* delete transports[sid] *)
| AClose (sid : string) (l : loc)         (* transports[sessionId].close() *)
| ARespond (status : nat) (b : body)      (* res.status(status).json(b) / .send(b) *)
| AConsoleLog (msg : string)
| AConsoleError (msg : string) (error : js_exn)
| AExit (code : nat).

(** Lines 175-178. *)
Definition onsessioninitialized (transport : loc) (sid : string) (st : Server)
    : Server * list action :=
  (with_transports st (js_set (transports st) sid transport),
   [AConsoleLog ("Session initialized with ID: " +:+ sid); ARegister sid transport]).

(** Lines 182-188. *)
Definition onclose (transport : loc) (st : Server) : Server * list action :=
  let sid := (heap st !! transport) ≫= sessionId in
  if truthy_opt sid && js_truthy (js_get (transports st) (default EmptyString sid))
  then (with_transports st (js_delete (transports st) (default EmptyString sid)),
        [AConsoleLog ("Transport closed for session " +:+ default EmptyString sid);
         AUnregister (default EmptyString sid)])
  else (st, []).

(** The SDK transport is outside this repository.  What it may do to the
    state of server.ts while it handles one request is a sequence of:
    the handshake (it draws [sessionIdGenerator()], stores the result in
    [this.sessionId] and calls [onsessioninitialized] with it; a transport
    that already has a session identifier refuses to initialize again),
    the delivery of the call to the connected engine (a transport that has
    not performed the handshake answers the call itself and delivers
    nothing), and the close signal ([onclose]). *)
Inductive sdk_event :=
| Handshake (entropy : N)
| Deliver
| Close.

Definition sdk_event_step (transport : loc) (ev : sdk_event) (st : Server)
    : Server * list action :=
  match ev with
  | Handshake entropy =>
      match heap st !! transport with
      | Some {| sessionId := None |} =>
          let sid := randomUUID entropy in
          let st1 := {| heap := <[transport := {| sessionId := Some sid |}]> (heap st);
                        transports := transports st |} in
          onsessioninitialized transport sid st1
      | _ => (st, [])
      end
  | Deliver =>
      match heap st !! transport with
      | Some {| sessionId := Some _ |} => (st, [ADeliver transport])
      | _ => (st, [])
      end
  | Close => onclose transport st
  end.

Fixpoint sdk_events (transport : loc) (evs : list sdk_event) (st : Server)
    : Server * list action :=
  match evs with
  | [] => (st, [])
  | ev :: rest =>
      let '(st1, t1) := sdk_event_step transport ev st in
      let '(st2, t2) := sdk_events transport rest st1 in
      (st2, t1 ++ t2)
  end.

(** One call of [transport.handleRequest], as the environment decides it:
    the events above, whether the response has been started when the call
    ends ([res.headersSent]), and whether the call ends by throwing. *)
Record sdk_run := {
  run_events : list sdk_event;
  run_headersSent : bool;
  run_throws : option js_exn
}.

Record handled := {
  h_state : Server;
  h_trace : list action;
  h_headersSent : bool;
  h_thrown : option js_exn
}.

(** [await transport.handleRequest(...)] where [transport] is whatever
    [transports[sessionId]] (or the fresh transport) evaluated to. *)
Definition handleRequest (transport : js_value) (run : sdk_run) (st : Server)
    : handled :=
  match transport with
  | VTransport l =>
      let '(st', tr) := sdk_events l (run_events run) st in
      {| h_state := st'; h_trace := AHandle l :: tr;
         h_headersSent := run_headersSent run; h_thrown := run_throws run |}
  | VInherited _ =>
      {| h_state := st; h_trace := []; h_headersSent := false;
         h_thrown := Some (ErrorObject "transport.handleRequest is not a function") |}
  | VUndefined =>
      {| h_state := st; h_trace := []; h_headersSent := false;
         h_thrown := Some (ErrorObject
           "Cannot read properties of undefined (reading 'handleRequest')") |}
  end.

(** An inbound request: the [mcp-session-id] header and
    [isInitializeRequest(req.body)]. *)
Record Request := {
  header_session_id : option string;
  body_is_initialize : bool
}.

(** What an async route handler leaves behind: the state, what it did, and
    the exception its promise rejects with, if any. *)
Record Outcome := {
  final : Server;
  trace : list action;
  rejected : option js_exn
}.

Definition bad_request : body :=
  JsonRpcError (-32000) "Bad Request: No valid session ID provided".
Definition internal_error : body :=
  JsonRpcError (-32603) "Internal server error".
Definition invalid_session : body :=
  PlainText "Invalid or missing session ID".
Definition termination_error : body :=
  PlainText "Error processing session termination".

(** Lines 165-209: the [try] block of the POST handler. *)
Definition post_try (req : Request) (run : sdk_run) (st : Server) : handled :=
  let sessionId := header_session_id req in
  if truthy_opt sessionId
     && js_truthy (js_get (transports st) (default EmptyString sessionId)) then
    handleRequest (js_get (transports st) (default EmptyString sessionId)) run st
  else if negb (truthy_opt sessionId) && body_is_initialize req then
    let transport := length (heap st) in
    let st1 := {| heap := heap st ++ [ {| sessionId := None |} ];
                  transports := transports st |} in
    let h := handleRequest (VTransport transport) run st1 in
    {| h_state := h_state h;
       h_trace := ANew transport :: AConnect transport :: h_trace h;
       h_headersSent := h_headersSent h; h_thrown := h_thrown h |}
  else
    {| h_state := st; h_trace := [ARespond 400 bad_request];
       h_headersSent := true; h_thrown := None |}.

(** Lines 162-223. *)
Definition post_mcp (req : Request) (run : sdk_run) (st : Server) : Outcome :=
  let h := post_try req run st in
  match h_thrown h with
  | None => {| final := h_state h; trace := h_trace h; rejected := None |}
  | Some error =>
      {| final := h_state h;
         trace := h_trace h
                  ++ AConsoleError "Error handling MCP request:" error
                  :: (if negb (h_headersSent h) then [ARespond 500 internal_error]
                      else []);
         rejected := None |}
  end.

(** Lines 226-234. *)
Definition get_mcp (req : Request) (run : sdk_run) (st : Server) : Outcome :=
  let sessionId := header_session_id req in
  if negb (truthy_opt sessionId)
     || negb (js_truthy (js_get (transports st) (default EmptyString sessionId))) then
    {| final := st; trace := [ARespond 400 invalid_session]; rejected := None |}
  else
    let h := handleRequest (js_get (transports st) (default EmptyString sessionId)) run st in
    {| final := h_state h; trace := h_trace h; rejected := h_thrown h |}.

(** Lines 237-252. *)
Definition delete_mcp (req : Request) (run : sdk_run) (st : Server) : Outcome :=
  let sessionId := header_session_id req in
  if negb (truthy_opt sessionId)
     || negb (js_truthy (js_get (transports st) (default EmptyString sessionId))) then
    {| final := st; trace := [ARespond 400 invalid_session]; rejected := None |}
  else
    let h := handleRequest (js_get (transports st) (default EmptyString sessionId)) run st in
    match h_thrown h with
    | None => {| final := h_state h; trace := h_trace h; rejected := None |}
    | Some error =>
        {| final := h_state h;
           trace := h_trace h
                    ++ AConsoleError "Error handling session termination:" error
                    :: (if negb (h_headersSent h) then [ARespond 500 termination_error]
                        else []);
           rejected := None |}
    end.

(** One call of [transport.close()] of the SDK: whether it gets as far as
    signalling [onclose], and whether it ends by throwing. *)
Record sdk_close := {
  close_signals : bool;
  close_throws : option js_exn
}.

(** Lines 266-273: the [for ... in] over [transports].  [pending] are the
    own keys found when the loop started; a key deleted before its turn is
    not visited. *)
Fixpoint sigint_loop (pending : list string) (closing : loc → sdk_close)
    (st : Server) : Server * list action :=
  match pending with
  | [] => (st, [])
  | sessionId :: rest =>
      match own_get (transports st) sessionId with
      | None => sigint_loop rest closing st
      | Some transport =>
          let '(st1, t1) :=
            if close_signals (closing transport) then onclose transport st
            else (st, []) in
          match close_throws (closing transport) with
          | None =>
              let st2 := with_transports st1 (js_delete (transports st1) sessionId) in
              let '(st3, t3) := sigint_loop rest closing st2 in
              (st3, AClose sessionId transport :: t1 ++ AUnregister sessionId :: t3)
          | Some error =>
              let '(st3, t3) := sigint_loop rest closing st1 in
              (st3, AClose sessionId transport :: t1
                    ++ AConsoleError
                         ("Error closing transport for session " +:+ sessionId +:+ ":")
                         error
                    :: t3)
          end
      end
  end.

(** Lines 264-275: the SIGINT handler. *)
Definition sigint (closing : loc → sdk_close) (st : Server) : Outcome :=
  let '(st', t) := sigint_loop (keys (transports st)) closing st in
  {| final := st';
     trace := AConsoleLog "Shutting down server..." :: t ++ [AExit 0];
     rejected := None |}.

(** Everything that can happen to the state between start-up and exit. *)
Inductive input :=
| POST (req : Request) (run : sdk_run)
| GET (req : Request) (run : sdk_run)
| DELETE (req : Request) (run : sdk_run)
| Disconnect (transport : loc)            (* the transport signals close by itself *)
| SIGINT (closing : loc → sdk_close).

Definition dispatch (i : input) (st : Server) : Outcome :=
  match i with
  | POST req run => post_mcp req run st
  | GET req run => get_mcp req run st
  | DELETE req run => delete_mcp req run st
  | Disconnect transport =>
      {| final := (onclose transport st).1; trace := (onclose transport st).2;
         rejected := None |}
  | SIGINT closing => sigint closing st
  end.

Definition step (i : input) (st : Server) : Server := final (dispatch i st).

Inductive reachable : Server → Prop :=
| reachable_initial : reachable initial
| reachable_step i st : reachable st → reachable (step i st).

(** Every registered key is the session identifier of the transport it maps
    to, keys are unique, and session identifiers are UUIDs. *)
Record table_ok (st : Server) : Prop := {
  ok_keys : NoDup (keys (transports st));
  ok_owner : ∀ k l, own_get (transports st) k = Some l →
               ∃ t, heap st !! l = Some t ∧ sessionId t = Some k;
  ok_uuid : ∀ l t sid, heap st !! l = Some t → sessionId t = Some sid →
              String.length sid = 36
}.

(** The close calls a trace attempts, in order. *)
Fixpoint closes (t : list action) : list string :=
  match t with
  | [] => []
  | AClose sid _ :: rest => sid :: closes rest
  | _ :: rest => closes rest
  end.

Definition is_new (a : action) : bool :=
  match a with ANew _ => true | _ => false end.

(** A header that cannot select a session: absent or empty, or a text that
    is neither a key of the table nor the name of an inherited property. *)
Definition no_session (st : Server) (header : option string) : Prop :=
  truthy_opt header = false
  ∨ ∃ sid, header = Some sid ∧ own_get (transports st) sid = None
           ∧ sid ∉ object_prototype_names.

(** The close of this transport throws before it signals [onclose]. *)
Definition close_fails (closing : loc → sdk_close) (transport : loc) : bool :=
  match close_throws (closing transport) with
  | Some _ => negb (close_signals (closing transport))
  | None => false
  end.

(** The state in which the SIGINT loop continues after the turn of key [k],
    registered for transport [l]. *)
Definition after_turn (closing : loc → sdk_close) (st : Server) (k : string)
    (l : loc) : Server :=
  if close_fails closing l then st
  else with_transports st (js_delete (transports st) k).

(** An initialize call without session header, and the transport's normal
    handling of it: handshake, then delivery to the engine. *)
Definition init_request : Request :=
  {| header_session_id := None; body_is_initialize := true |}.

Definition accepted (entropy : N) : sdk_run :=
  {| run_events := [Handshake entropy; Deliver];
     run_headersSent := true; run_throws := None |}.

Definition one_session : Server := step (POST init_request (accepted 0)) initial.

Definition two_sessions : Server := step (POST init_request (accepted 1)) one_session.

Definition failing_close (_ : loc) : sdk_close :=
  {| close_signals := false; close_throws := Some (ErrorObject "close failed") |}.

Definition failing_run : sdk_run :=
  {| run_events := []; run_headersSent := false;
     run_throws := Some (ErrorObject "stream failure") |}.

#[global] Instance sdk_event_eq_dec : EqDecision sdk_event.
Proof. solve_decision. Defined.

(** Actions that the callbacks of server.ts perform when the SDK transport
    invokes them, as opposed to those of the route handlers themselves. *)
Definition is_callback_action (a : action) : bool :=
  match a with
  | AConsoleLog _ | ARegister _ _ | ADeliver _ | AUnregister _ => true
  | _ => false
  end.

(** The [catch] clauses of the POST and DELETE handlers (lines 210-222,
    246-251) as a suffix of the trace. *)
Definition failure_tail (msg : string) (b : body) (run : sdk_run) : list action :=
  match run_throws run with
  | None => []
  | Some error =>
      AConsoleError msg error
      :: (if negb (run_headersSent run) then [ARespond 500 b] else [])
  end.

Definition count_new (t : list action) : nat :=
  length (filter (λ a, is_new a = true) t).

(** The inputs that take the branch of lines 171-194. *)
Definition creates_transport (i : input) : bool :=
  match i with
  | POST req _ => negb (truthy_opt (header_session_id req)) && body_is_initialize req
  | _ => false
  end.

(** A call whose handling makes the transport signal close, as the SDK
    does for DELETE. *)
Definition closing_run : sdk_run :=
  {| run_events := [Close]; run_headersSent := true; run_throws := None |}.




Definition is_response (a : action) : bool :=
  match a with ARespond _ _ => true | _ => false end.


(** The three routes of [/mcp]. *)
Inductive method := MPost | MGet | MDelete.

Definition handler (m : method) : Request → sdk_run → Server → Outcome :=
  match m with
  | MPost => post_mcp
  | MGet => get_mcp
  | MDelete => delete_mcp
  end.

(** What the body of a route handler attempts before any [catch]: for POST
    its [try] block, for GET and DELETE the guard and the call of
    [handleRequest].  [h_thrown] tells whether that attempt failed and
    [h_headersSent] whether a response had been started by then. *)
Definition attempt (m : method) (req : Request) (run : sdk_run) (st : Server)
    : handled :=
  match m with
  | MPost => post_try req run st
  | MGet | MDelete =>
      let sessionId := header_session_id req in
      if negb (truthy_opt sessionId)
         || negb (js_truthy (js_get (transports st) (default EmptyString sessionId)))
      then {| h_state := st; h_trace := [ARespond 400 invalid_session];
              h_headersSent := true; h_thrown := None |}
      else handleRequest (js_get (transports st) (default EmptyString sessionId)) run st
  end.

(** The Express 5 application that [createMcpExpressApp()] returns (line
    158) is outside this repository.  What matters of it here: the page it
    renders for an error, and whether it logs errors (it does unless it
    runs in its test environment). *)
Record Express := {
  error_page : js_exn → body;
  logs_errors : bool
}.

(** What the application does with a route handler whose promise rejects:
    the error goes to its final handler, which logs it and, when no
    response has been started, answers with status 500 (the errors thrown
    here carry no status of their own); when the response has been started
    it writes nothing more and drops the connection. *)
Definition express (app : Express) (headersSent : bool) (o : Outcome) : Outcome :=
  match rejected o with
  | None => o
  | Some error =>
      {| final := final o;
         trace := trace o
                  ++ (if logs_errors app then [AConsoleError EmptyString error] else [])
                  ++ (if negb headersSent then [ARespond 500 (error_page app error)]
                      else []);
         rejected := None |}
  end.

(** One request as the server answers it: the route handler of server.ts
    run by the application. *)
Definition serve (app : Express) (m : method) (req : Request) (run : sdk_run)
    (st : Server) : Outcome :=
  express app (h_headersSent (attempt m req run st)) (handler m req run st).

(** The body of the 500 that answers a failure on each route. *)
Definition failure_body (app : Express) (m : method) (error : js_exn) : body :=
  match m with
  | MPost => internal_error
  | MGet => error_page app error
  | MDelete => termination_error
  end.

Definition default_app : Express :=
  {| error_page := λ _, PlainText "Internal Server Error"; logs_errors := true |}.

End Http.

(* --------------------------------------------------------------------- *)
(* 4b. Transport selection (main)                                         *)
(* --------------------------------------------------------------------- *)

Module Main.

Inductive started :=
| StartHttp                               (* await startHttpServer() *)
| StartStdio                              (* await startStdioServer() *)
| Fail (message : string) (code : nat).   (* console.error(message); process.exit(code) *)

(** Lines 281-292, as a function of [process.env.MCP_TRANSPORT]. *)
Definition main (MCP_TRANSPORT : option string) : started :=
  let transport :=
    if truthy_opt MCP_TRANSPORT then default EmptyString MCP_TRANSPORT else "stdio" in
  if bool_decide (transport = "http") then StartHttp
  else if bool_decide (transport = "stdio") then StartStdio
  else Fail ("Unknown transport mode: " +:+ transport +:+ ". Use 'stdio' or 'http'") 1.

End Main.

(* ===================================================================== *)
(* 5. The tool handler                                                    *)
(* ===================================================================== *)

Section ToolHandler.
Import Tools.

Lemma scan_addresses_first addresses ipAddress :
  scan_addresses addresses ipAddress =
    match head (filter (λ a, qualifies a = true) addresses) with
    | Some a => Some (address a)
    | None => ipAddress
    end.
Proof.
  induction addresses as [|addr rest IH]; [reflexivity|].
  cbn [scan_addresses]. rewrite filter_cons.
  change (bool_decide (family addr = "IPv4") && negb (internal addr))
    with (qualifies addr).
  destruct (decide (qualifies addr = true)) as [Hq|Hq].
  - rewrite Hq. reflexivity.
  - destruct (qualifies addr); [done|]. exact IH.
Qed.

Lemma all_addresses_cons ifname addresses rest :
  all_addresses ((ifname, addresses) :: rest)
  = default [] addresses ++ all_addresses rest.
Proof. reflexivity. Qed.

Lemma head_app_Some {A} (l1 l2 : list A) a :
  head l1 = Some a → head (l1 ++ l2) = Some a.
Proof. destruct l1; [discriminate|]. intros H. exact H. Qed.

Lemma head_app_None {A} (l1 l2 : list A) :
  head l1 = None → head (l1 ++ l2) = head l2.
Proof. destruct l1; [reflexivity|discriminate]. Qed.

(** The loop of the source against the selection rule of the specification,
    when every qualifying address is a non-empty text. *)
Lemma scan_interfaces_first interfaces ipAddress :
  truthy_opt ipAddress = false →
  (∀ a, a ∈ all_addresses interfaces → qualifies a = true →
        truthy_string (address a) = true) →
  scan_interfaces interfaces ipAddress =
    match spec_first_external_ipv4 interfaces with
    | Some a => Some a
    | None => ipAddress
    end.
Proof.
  unfold spec_first_external_ipv4.
  induction interfaces as [|[ifname addresses] rest IH]; intros Hfalsy Hwf;
    [reflexivity|].
  cbn [scan_interfaces]. rewrite all_addresses_cons, filter_app.
  destruct addresses as [addrs|]; cbn [default].
  - rewrite scan_addresses_first.
    destruct (head (filter (λ a, qualifies a = true) addrs)) as [a|] eqn:Hhead.
    + assert (Hin : a ∈ filter (λ a, qualifies a = true) addrs)
        by (destruct (filter _ addrs); [discriminate|]; injection Hhead as ->; left).
      apply list_elem_of_filter in Hin as [Hq Hin].
      rewrite (head_app_Some _ _ _ Hhead). cbn.
      rewrite Hwf; [reflexivity| |exact Hq].
      rewrite all_addresses_cons. apply elem_of_app. left. exact Hin.
    + rewrite (head_app_None _ _ Hhead), Hfalsy.
      apply IH; [exact Hfalsy|].
      intros a Ha. apply Hwf. rewrite all_addresses_cons.
      apply elem_of_app. right. exact Ha.
  - cbn [app]. apply IH; [exact Hfalsy|].
    intros a Ha. apply Hwf. rewrite all_addresses_cons. exact Ha.
Qed.

Lemma call_tool_returns request os : ∃ r, call_tool request os = Normal r.
Proof.
  unfold call_tool, try_catch.
  destruct (call_tool_switch request os); eauto.
Qed.

(** C4: for every result of the interface enumeration, get_ip_address
    returns normally; when the enumeration succeeds it answers with
    [{ipAddress: a}] for the first address, in interface-then-address
    order, that is IPv4 and not internal, and with the fixed error payload
    and the error flag when no address qualifies. *)
Theorem get_ip_address_first_external_ipv4 request os :
  name request = "get_ip_address" →
  (∃ r, call_tool request os = Normal r) ∧
  ∀ interfaces,
    os_networkInterfaces os = Normal interfaces →
    qualifying_nonempty interfaces = true →
    call_tool request os =
      Normal (match spec_first_external_ipv4 interfaces with
              | Some a => text_result (JSON_stringify "ipAddress" a) false
              | None =>
                  text_result (JSON_stringify "error" "No external IPv4 address found") true
              end).
Proof.
  intros Hname. split; [apply call_tool_returns|].
  intros interfaces Hos Hwf.
  unfold call_tool, call_tool_switch. rewrite Hname, Hos. cbn [bool_decide bind].
  rewrite bool_decide_eq_false_2 by discriminate.
  rewrite bool_decide_eq_true_2 by reflexivity. cbn [bind].
  rewrite scan_interfaces_first; [|reflexivity|].
  - destruct (spec_first_external_ipv4 interfaces) as [a|] eqn:Hspec;
      [|reflexivity].
    assert (Ha : truthy_string a = true); [|cbn; rewrite Ha; reflexivity].
    unfold spec_first_external_ipv4 in Hspec.
    destruct (head _) as [info|] eqn:Hhead; [|discriminate].
    injection Hspec as <-.
    assert (Hin : info ∈ filter (λ a, qualifies a = true) (all_addresses interfaces))
      by (destruct (filter _ _); [discriminate|]; injection Hhead as ->; left).
    apply list_elem_of_filter in Hin as [Hq Hin].
    unfold qualifying_nonempty in Hwf. rewrite forallb_forall in Hwf.
    apply list_elem_of_In, Hwf in Hin. rewrite Hq in Hin. exact Hin.
  - intros a Ha Hq. unfold qualifying_nonempty in Hwf.
    rewrite forallb_forall in Hwf.
    apply list_elem_of_In, Hwf in Ha. rewrite Hq in Ha. exact Ha.
Qed.

Lemma get_ip_address_first_external_ipv4_witness :
  call_tool {| name := "get_ip_address"; arguments := None |} example_os
  = Normal (text_result (JSON_stringify "ipAddress" "192.168.1.20") false).
Proof.
  exact (proj2 (get_ip_address_first_external_ipv4
                  {| name := "get_ip_address"; arguments := None |} example_os
                  eq_refl)
               example_interfaces eq_refl eq_refl).
Defined.

(** C5: an exception raised while either tool runs is caught and turned
    into an error result that carries the exception's message; the handler
    itself always returns normally. *)
Theorem tool_exceptions_become_error_results request os error :
  (name request = "get_hostname" ∧ os_hostname os = Throw error)
  ∨ (name request = "get_ip_address" ∧ os_networkInterfaces os = Throw error) →
  call_tool request os
  = Normal (text_result (JSON_stringify "error" (error_message error)) true)
  ∧ ∀ request' os', ∃ r, call_tool request' os' = Normal r.
Proof.
  intros H. split; [|intros; apply call_tool_returns].
  unfold call_tool, call_tool_switch.
  destruct H as [[Hname Hos]|[Hname Hos]]; rewrite Hname, Hos.
  - rewrite bool_decide_eq_true_2 by reflexivity. reflexivity.
  - rewrite bool_decide_eq_false_2 by discriminate.
    rewrite bool_decide_eq_true_2 by reflexivity. reflexivity.
Qed.

Lemma tool_exceptions_become_error_results_witness :
  call_tool {| name := "get_hostname"; arguments := None |} failing_os
  = Normal (text_result
              (JSON_stringify "error" "uv_os_gethostname returned ENOSYS") true).
Proof.
  exact (proj1 (tool_exceptions_become_error_results
                  {| name := "get_hostname"; arguments := None |} failing_os
                  (ErrorObject "uv_os_gethostname returned ENOSYS")
                  (or_introl (conj eq_refl eq_refl)))).
Defined.

(** C6: a call that names neither tool is answered, whatever its
    arguments, by an error result whose text carries
    [Unknown tool: <name>]; nothing is thrown to the transport. *)
Theorem unknown_tool_is_error_result request os :
  name request ≠ "get_hostname" →
  name request ≠ "get_ip_address" →
  call_tool request os
  = Normal (text_result
              (JSON_stringify "error" ("Unknown tool: " +:+ name request)) true).
Proof.
  intros H1 H2. unfold call_tool, call_tool_switch.
  rewrite !bool_decide_eq_false_2 by assumption. reflexivity.
Qed.

Lemma unknown_tool_is_error_result_witness :
  call_tool {| name := "get_uptime";
               arguments := Some (JObject [("verbose", JBool true)]) |} example_os
  = Normal (text_result (JSON_stringify "error" "Unknown tool: get_uptime") true).
Proof.
  apply (unknown_tool_is_error_result
           {| name := "get_uptime";
              arguments := Some (JObject [("verbose", JBool true)]) |} example_os);
    discriminate.
Defined.

(** C8: two calls of get_hostname that see the same OS hostname return the
    same result [{hostname: h}], whatever their arguments and whatever the
    rest of the OS state. *)
Theorem get_hostname_deterministic request1 request2 os1 os2 h :
  name request1 = "get_hostname" →
  name request2 = "get_hostname" →
  os_hostname os1 = Normal h →
  os_hostname os2 = Normal h →
  call_tool request1 os1 = call_tool request2 os2
  ∧ call_tool request1 os1
    = Normal (text_result (JSON_stringify "hostname" h) false).
Proof.
  intros Hn1 Hn2 Hos1 Hos2. unfold call_tool, call_tool_switch.
  rewrite Hn1, Hn2, Hos1, Hos2.
  rewrite bool_decide_eq_true_2 by reflexivity. split; reflexivity.
Qed.

Lemma get_hostname_deterministic_witness :
  call_tool {| name := "get_hostname"; arguments := None |} example_os
  = call_tool {| name := "get_hostname"; arguments := Some (JArray [JNull]) |}
      {| os_hostname := Normal "build-host"; os_networkInterfaces := Normal [] |}
  ∧ call_tool {| name := "get_hostname"; arguments := None |} example_os
    = Normal (text_result (JSON_stringify "hostname" "build-host") false).
Proof.
  apply (get_hostname_deterministic
           {| name := "get_hostname"; arguments := None |}
           {| name := "get_hostname"; arguments := Some (JArray [JNull]) |}
           example_os
           {| os_hostname := Normal "build-host"; os_networkInterfaces := Normal [] |}
           "build-host"); reflexivity.
Defined.

End ToolHandler.

(* ===================================================================== *)
(* 6. The [transports] record                                             *)
(* ===================================================================== *)

Section TransportsRecord.
Import Http.
Implicit Types (o : list (string * loc)) (k key : string) (l : loc).

Lemma own_get_None o k : own_get o k = None ↔ k ∉ keys o.
Proof.
  unfold keys. induction o as [|[k' l'] o IH]; cbn.
  - split; [intros _; apply not_elem_of_nil|done].
  - rewrite not_elem_of_cons. case_bool_decide as Hk.
    + split; [discriminate|]. intros [Hne _]. by destruct Hne.
    + rewrite IH. split; [intros Hnotin; split; congruence|by intros [_ Hnotin]].
Qed.

Lemma own_get_Some o k : is_Some (own_get o k) ↔ k ∈ keys o.
Proof.
  rewrite <- not_eq_None_Some, own_get_None.
  destruct (decide (k ∈ keys o)); naive_solver.
Qed.

Lemma own_get_set o k l k' :
  own_get (js_set o k l) k' = if bool_decide (k = k') then Some l else own_get o k'.
Proof.
  induction o as [|[k0 l0] o IH]; cbn.
  - reflexivity.
  - destruct (bool_decide (k0 = k)) eqn:H0; cbn.
    + apply bool_decide_eq_true_1 in H0 as ->. by repeat case_bool_decide.
    + apply bool_decide_eq_false_1 in H0. rewrite IH.
      repeat case_bool_decide; congruence.
Qed.

Lemma own_get_delete o k k' :
  own_get (js_delete o k) k' = if bool_decide (k = k') then None else own_get o k'.
Proof.
  unfold js_delete. induction o as [|[k0 l0] o IH].
  - cbn. by case_bool_decide.
  - rewrite filter_cons. cbn [fst own_get].
    destruct (decide (k0 ≠ k)) as [Hk|Hk]; cbn [own_get].
    + rewrite IH. repeat case_bool_decide; congruence.
    + assert (k0 = k) as -> by (destruct (decide (k0 = k)); [done|by destruct Hk]).
      rewrite IH. repeat case_bool_decide; congruence.
Qed.

Lemma keys_set_fresh o k l :
  k ∉ keys o → keys (js_set o k l) = keys o ++ [k].
Proof.
  unfold keys. induction o as [|[k0 l0] o IH]; cbn; [reflexivity|].
  rewrite not_elem_of_cons. intros [Hne Hnotin].
  rewrite bool_decide_eq_false_2 by congruence. cbn. by rewrite IH.
Qed.

Lemma keys_set_present o k l :
  k ∈ keys o → keys (js_set o k l) = keys o.
Proof.
  unfold keys. induction o as [|[k0 l0] o IH]; cbn.
  - intros H. by apply elem_of_nil in H.
  - intros H. case_bool_decide; [reflexivity|]. cbn.
    apply elem_of_cons in H as [->|H]; [done|]. by rewrite IH.
Qed.

Lemma keys_delete o k : keys (js_delete o k) = filter (λ k', k' ≠ k) (keys o).
Proof.
  unfold keys, js_delete. induction o as [|[k0 l0] o IH]; [reflexivity|].
  rewrite fmap_cons, !filter_cons. cbn [fst].
  destruct (decide (k0 ≠ k)); [rewrite fmap_cons|]; by rewrite IH.
Qed.

Lemma NoDup_keys_set o k l : NoDup (keys o) → NoDup (keys (js_set o k l)).
Proof.
  intros Hnd. destruct (decide (k ∈ keys o)) as [Hin|Hnotin].
  - by rewrite keys_set_present.
  - rewrite keys_set_fresh by done. apply NoDup_app. split; [done|].
    split; [|apply NoDup_singleton].
    intros x Hx Hk. apply list_elem_of_singleton in Hk as ->. done.
Qed.

Lemma NoDup_keys_delete o k : NoDup (keys o) → NoDup (keys (js_delete o k)).
Proof. intros Hnd. rewrite keys_delete. by apply NoDup_filter. Qed.

Lemma own_get_all_None o : (∀ k, own_get o k = None) → o = [].
Proof.
  destruct o as [|[k l] o]; [done|]. intros H. specialize (H k). cbn in H.
  by rewrite bool_decide_eq_true_2 in H.
Qed.

Lemma uuid_length entropy : String.length (randomUUID entropy) = 36.
Proof. reflexivity. Qed.

Lemma length_36_truthy k : String.length k = 36 → truthy_string k = true.
Proof. destruct k; [discriminate|reflexivity]. Qed.

Lemma length_36_not_inherited k :
  String.length k = 36 → k ∉ object_prototype_names.
Proof.
  intros Hlen Hin. unfold object_prototype_names in Hin.
  repeat (apply elem_of_cons in Hin as [->|Hin]; [discriminate Hlen|]).
  by apply elem_of_nil in Hin.
Qed.

Lemma js_get_own o k l : own_get o k = Some l → js_get o k = VTransport l.
Proof. unfold js_get. by intros ->. Qed.

Lemma js_get_unknown o k :
  own_get o k = None → k ∉ object_prototype_names → js_get o k = VUndefined.
Proof.
  unfold js_get. intros -> Hk. by rewrite bool_decide_eq_false_2.
Qed.

End TransportsRecord.

(* ===================================================================== *)
(* 7. The session table stays well formed                                 *)
(* ===================================================================== *)

Section SessionTable.
Import Http.
Implicit Types (st : Server) (k sid : string) (l : loc).

Lemma table_ok_initial : table_ok initial.
Proof.
  split; cbn.
  - apply NoDup_nil_2.
  - discriminate.
  - intros l t sid H. by rewrite lookup_nil in H.
Qed.

Lemma table_ok_alloc st :
  table_ok st →
  table_ok {| heap := heap st ++ [ {| sessionId := None |} ];
              transports := transports st |}.
Proof.
  intros [Hnd Hown Huuid]. split; cbn.
  - exact Hnd.
  - intros k l Hk. destruct (Hown k l Hk) as (t & Ht & Hsid).
    exists t. split; [|exact Hsid]. rewrite lookup_app_l; [exact Ht|].
    by apply lookup_lt_Some in Ht.
  - intros l t sid Ht Hsid. apply lookup_app_Some in Ht as [Ht|[_ Ht]].
    + by apply (Huuid l t).
    + apply list_lookup_singleton_Some in Ht as [_ <-]. discriminate.
Qed.

Lemma table_ok_delete st k :
  table_ok st → table_ok (with_transports st (js_delete (transports st) k)).
Proof.
  intros [Hnd Hown Huuid]. split; cbn.
  - by apply NoDup_keys_delete.
  - intros k' l. rewrite own_get_delete. case_bool_decide; [discriminate|].
    apply Hown.
  - exact Huuid.
Qed.

Lemma table_ok_onclose l st : table_ok st → table_ok (onclose l st).1.
Proof.
  intros Hok. unfold onclose.
  destruct (_ && _); cbn [fst]; [by apply table_ok_delete|exact Hok].
Qed.

Lemma table_ok_handshake l entropy st :
  table_ok st → table_ok (sdk_event_step l (Handshake entropy) st).1.
Proof.
  intros Hok. cbn [sdk_event_step].
  destruct (heap st !! l) as [[[sid0|]]|] eqn:Hl; [exact Hok| |exact Hok].
  destruct Hok as [Hnd Hown Huuid]. cbn [onsessioninitialized fst].
  assert (Hlt : l < length (heap st)) by by apply lookup_lt_Some in Hl.
  split; cbn.
  - by apply NoDup_keys_set.
  - intros k l'. rewrite own_get_set. case_bool_decide as Hk.
    + intros [= <-]. subst k. eexists. split; [by apply list_lookup_insert_eq|done].
    + intros Hk'. destruct (Hown k l' Hk') as (t & Ht & Hsid).
      exists t. split; [|exact Hsid].
      rewrite list_lookup_insert_ne; [exact Ht|].
      intros <-. rewrite Hl in Ht. injection Ht as <-. discriminate.
  - intros l' t sid Ht Hsid. destruct (decide (l = l')) as [<-|Hne].
    + rewrite list_lookup_insert_eq in Ht by done. injection Ht as <-.
      injection Hsid as <-. apply uuid_length.
    + rewrite list_lookup_insert_ne in Ht by done. by apply (Huuid l' t).
Qed.

Lemma table_ok_event l ev st :
  table_ok st → table_ok (sdk_event_step l ev st).1.
Proof.
  destruct ev.
  - apply table_ok_handshake.
  - cbn [sdk_event_step]. by destruct (heap st !! l) as [[[?|]]|].
  - apply table_ok_onclose.
Qed.

Lemma table_ok_events l evs st :
  table_ok st → table_ok (sdk_events l evs st).1.
Proof.
  revert st. induction evs as [|ev evs IH]; intros st Hok; [exact Hok|].
  cbn [sdk_events].
  pose proof (table_ok_event l ev st Hok) as Hev.
  destruct (sdk_event_step l ev st) as [st1 t1]. cbn [fst] in Hev.
  specialize (IH st1 Hev).
  destruct (sdk_events l evs st1) as [st2 t2]. exact IH.
Qed.

Lemma table_ok_handleRequest v run st :
  table_ok st → table_ok (h_state (handleRequest v run st)).
Proof.
  intros Hok. destruct v as [l| |]; cbn [handleRequest]; [|exact Hok..].
  pose proof (table_ok_events l (run_events run) st Hok) as Hev.
  destruct (sdk_events l (run_events run) st) as [st' tr]. exact Hev.
Qed.

Lemma table_ok_post_try req run st :
  table_ok st → table_ok (h_state (post_try req run st)).
Proof.
  intros Hok. unfold post_try.
  destruct (_ && _); [by apply table_ok_handleRequest|].
  destruct (_ && _); [|exact Hok].
  cbn [h_state]. by apply table_ok_handleRequest, table_ok_alloc.
Qed.

Lemma table_ok_post req run st : table_ok st → table_ok (final (post_mcp req run st)).
Proof.
  intros Hok. unfold post_mcp.
  pose proof (table_ok_post_try req run st Hok).
  by destruct (h_thrown (post_try req run st)).
Qed.

Lemma table_ok_get req run st : table_ok st → table_ok (final (get_mcp req run st)).
Proof.
  intros Hok. unfold get_mcp.
  destruct (_ || _); [exact Hok|]. by apply table_ok_handleRequest.
Qed.

Lemma table_ok_delete_mcp req run st :
  table_ok st → table_ok (final (delete_mcp req run st)).
Proof.
  intros Hok. unfold delete_mcp.
  destruct (_ || _); [exact Hok|].
  pose proof (table_ok_handleRequest
                (js_get (transports st) (default EmptyString (header_session_id req)))
                run st Hok).
  by destruct (h_thrown _).
Qed.

Lemma table_ok_sigint_loop pending closing st :
  table_ok st → table_ok (sigint_loop pending closing st).1.
Proof.
  revert st. induction pending as [|k pending IH]; intros st Hok; [exact Hok|].
  cbn [sigint_loop].
  destruct (own_get (transports st) k) as [l|]; [|by apply IH].
  pose proof (table_ok_onclose l st Hok) as Hcl.
  assert (Hmid : table_ok
            (if close_signals (closing l) then onclose l st else (st, [])).1)
    by (by destruct (close_signals (closing l))).
  destruct (if close_signals (closing l) then onclose l st else (st, []))
    as [st1 t1]. cbn [fst] in Hmid.
  destruct (close_throws (closing l)).
  - specialize (IH st1 Hmid). by destruct (sigint_loop pending closing st1).
  - specialize (IH _ (table_ok_delete st1 k Hmid)).
    by destruct (sigint_loop pending closing _).
Qed.

Lemma table_ok_step i st : table_ok st → table_ok (step i st).
Proof.
  intros Hok. destruct i as [req run|req run|req run|l|closing]; unfold step; cbn.
  - by apply table_ok_post.
  - by apply table_ok_get.
  - by apply table_ok_delete_mcp.
  - by apply table_ok_onclose.
  - unfold sigint.
    pose proof (table_ok_sigint_loop (keys (transports st)) closing st Hok).
    by destruct (sigint_loop _ _ _).
Qed.

Lemma reachable_table_ok st : reachable st → table_ok st.
Proof.
  induction 1 as [|i st _ IH]; [apply table_ok_initial|by apply table_ok_step].
Qed.

(** A registered key is a non-empty text that names no inherited property,
    and its transport carries it as session identifier. *)
Lemma registered_key st k l :
  table_ok st → own_get (transports st) k = Some l →
  truthy_string k = true ∧ js_get (transports st) k = VTransport l
  ∧ heap st !! l = Some {| sessionId := Some k |}.
Proof.
  intros [Hnd Hown Huuid] Hk. destruct (Hown k l Hk) as ([sid] & Ht & Hsid).
  cbn in Hsid. subst sid.
  split; [|split; [by apply js_get_own|exact Ht]].
  apply length_36_truthy. by apply (Huuid l _ k Ht).
Qed.

End SessionTable.

(* ===================================================================== *)
(* 8. Shutdown                                                            *)
(* ===================================================================== *)

Section Shutdown.
Import Http.
Implicit Types (st : Server) (k sid : string) (l : loc).

Lemma closes_app t1 t2 : closes (t1 ++ t2) = closes t1 ++ closes t2.
Proof.
  induction t1 as [|a t1 IH]; [reflexivity|].
  destruct a; cbn; by rewrite ?IH.
Qed.

Lemma onclose_registered st k l :
  table_ok st → own_get (transports st) k = Some l →
  onclose l st
  = (with_transports st (js_delete (transports st) k),
     [AConsoleLog ("Transport closed for session " +:+ k); AUnregister k]).
Proof.
  intros Hok Hk. destruct (registered_key st k l Hok Hk) as (Htruthy & Hget & Hheap).
  unfold onclose. rewrite Hheap. cbn. by rewrite Htruthy, Hget.
Qed.

Lemma js_delete_twice (o : list (string * loc)) k :
  js_delete (js_delete o k) k = js_delete o k.
Proof.
  unfold js_delete. rewrite list_filter_filter. apply list_filter_iff.
  intros p. tauto.
Qed.

Lemma sigint_loop_turn k pending closing st l :
  table_ok st → own_get (transports st) k = Some l →
  ∃ t1 t2,
    closes t1 = [] ∧
    sigint_loop (k :: pending) closing st
    = ((sigint_loop pending closing (after_turn closing st k l)).1,
       AClose k l :: t1 ++ t2 :: (sigint_loop pending closing (after_turn closing st k l)).2)
    ∧ closes [t2] = [].
Proof.
  intros Hok Hk. cbn [sigint_loop]. rewrite Hk.
  rewrite (onclose_registered st k l Hok Hk).
  unfold after_turn, close_fails.
  destruct (close_signals (closing l)), (close_throws (closing l)) as [e|];
    cbn [negb transports with_transports heap].
  - destruct (sigint_loop pending closing _) as [st3 t3] eqn:Hloop.
    eexists _, _. split; [|split; [reflexivity|reflexivity]]. reflexivity.
  - rewrite js_delete_twice.
    destruct (sigint_loop pending closing _) as [st3 t3] eqn:Hloop.
    eexists _, _. split; [|split; [reflexivity|reflexivity]]. reflexivity.
  - destruct (sigint_loop pending closing _) as [st3 t3] eqn:Hloop.
    eexists _, _. split; [|split; [reflexivity|reflexivity]]. reflexivity.
  - destruct (sigint_loop pending closing _) as [st3 t3] eqn:Hloop.
    eexists _, _. split; [|split; [reflexivity|reflexivity]]. reflexivity.
Qed.

Lemma table_ok_after_turn closing st k l :
  table_ok st → table_ok (after_turn closing st k l).
Proof.
  intros Hok. unfold after_turn.
  destruct (close_fails closing l); [exact Hok|by apply table_ok_delete].
Qed.

Lemma own_get_after_turn closing st k l k' :
  own_get (transports (after_turn closing st k l)) k'
  = if bool_decide (k = k') && negb (close_fails closing l) then None
    else own_get (transports st) k'.
Proof.
  unfold after_turn. destruct (close_fails closing l); cbn.
  - by rewrite andb_false_r.
  - rewrite own_get_delete, andb_true_r. reflexivity.
Qed.

Lemma sigint_loop_spec pending closing st :
  table_ok st → NoDup pending →
  (∀ k, k ∈ pending → is_Some (own_get (transports st) k)) →
  heap (sigint_loop pending closing st).1 = heap st
  ∧ closes (sigint_loop pending closing st).2 = pending
  ∧ ∀ k, own_get (transports (sigint_loop pending closing st).1) k
         = match own_get (transports st) k with
           | Some l =>
               if bool_decide (k ∈ pending) && negb (close_fails closing l)
               then None else Some l
           | None => None
           end.
Proof.
  revert st. induction pending as [|k0 pending IH]; intros st Hok Hnd Hpresent.
  - cbn. split; [reflexivity|]. split; [reflexivity|].
    intros k. by destruct (own_get (transports st) k).
  - apply NoDup_cons in Hnd as [Hk0 Hnd].
    destruct (Hpresent k0) as [l0 Hl0]; [left|].
    destruct (sigint_loop_turn k0 pending closing st l0 Hok Hl0)
      as (t1 & t2 & Ht1 & -> & Ht2).
    cbn [fst snd].
    destruct (IH (after_turn closing st k0 l0)) as (Hheap & Hcloses & Hget).
    + by apply table_ok_after_turn.
    + exact Hnd.
    + intros k Hk. rewrite own_get_after_turn.
      rewrite bool_decide_eq_false_2; [apply Hpresent; by right|].
      intros <-. done.
    + split; [|split].
      * rewrite Hheap. unfold after_turn. by destruct (close_fails closing l0).
      * cbn [closes]. rewrite closes_app, Ht1. cbn [app].
        change (closes (t2 :: ?r)) with (closes ([t2] ++ r)).
        rewrite closes_app, Ht2, Hcloses. reflexivity.
      * intros k. rewrite Hget, own_get_after_turn.
        destruct (decide (k0 = k)) as [<-|Hne].
        -- rewrite Hl0, bool_decide_eq_true_2 by done.
           rewrite (bool_decide_eq_true_2 (k0 ∈ k0 :: pending)) by left.
           rewrite (bool_decide_eq_false_2 (k0 ∈ pending)) by done.
           cbn [andb]. by destruct (close_fails closing l0).
        -- rewrite (bool_decide_eq_false_2 (k0 = k)) by done. cbn [andb].
           destruct (own_get (transports st) k) as [l|]; [|done].
           assert (bool_decide (k ∈ k0 :: pending) = bool_decide (k ∈ pending))
             as ->; [|done].
           apply bool_decide_ext. rewrite elem_of_cons.
           split; [intros [Heq|H]; [by destruct Hne|exact H]|by right].
Qed.

(** C1, as the code has it: SIGINT calls [close] on every registered
    session, in table order, whatever the earlier closes did; an entry is
    removed when its close returns (or got as far as the close signal) and
    stays when its close throws before that; the table ends empty when no
    close fails. *)
Theorem sigint_attempts_every_close st closing :
  reachable st →
  closes (trace (sigint closing st)) = keys (transports st)
  ∧ (∀ k, own_get (transports (final (sigint closing st))) k
          = match own_get (transports st) k with
            | Some l => if close_fails closing l then Some l else None
            | None => None
            end)
  ∧ ((∀ l, close_fails closing l = false) →
     transports (final (sigint closing st)) = []).
Proof.
  intros Hreach. pose proof (reachable_table_ok st Hreach) as Hok.
  destruct (sigint_loop_spec (keys (transports st)) closing st Hok)
    as (_ & Hcloses & Hget).
  { apply Hok. }
  { intros k Hk. by apply own_get_Some. }
  unfold sigint.
  destruct (sigint_loop (keys (transports st)) closing st) as [st' t].
  cbn [fst snd final trace] in *.
  assert (Hfinal : ∀ k, own_get (transports st') k
            = match own_get (transports st) k with
              | Some l => if close_fails closing l then Some l else None
              | None => None
              end).
  { intros k. rewrite Hget.
    destruct (own_get (transports st) k) as [l|] eqn:Hk; [|done].
    rewrite bool_decide_eq_true_2 by (apply own_get_Some; by rewrite Hk).
    by destruct (close_fails closing l). }
  split; [|split].
  - cbn [closes]. rewrite closes_app, Hcloses. cbn. by rewrite app_nil_r.
  - exact Hfinal.
  - intros Hall. apply own_get_all_None. intros k. rewrite Hfinal.
    destruct (own_get (transports st) k) as [l|]; [|done]. by rewrite Hall.
Qed.

Lemma sigint_attempts_every_close_witness :
  reachable two_sessions
  ∧ closes (trace (sigint failing_close two_sessions))
    = [randomUUID 0; randomUUID 1].
Proof.
  assert (Hreach : reachable two_sessions)
    by (do 2 apply reachable_step; apply reachable_initial).
  split; [exact Hreach|].
  exact (proj1 (sigint_attempts_every_close two_sessions failing_close Hreach)).
Defined.

(** C1, as stated, fails: with one session whose close throws, the table
    is not empty after SIGINT. *)
Lemma sigint_failed_close_keeps_entry :
  reachable one_session
  ∧ transports one_session = [(randomUUID 0, 0)]
  ∧ closes (trace (sigint failing_close one_session)) = [randomUUID 0]
  ∧ transports (final (sigint failing_close one_session)) ≠ [].
Proof.
  split; [apply reachable_step, reachable_initial|].
  split; [reflexivity|]. split; [reflexivity|]. discriminate.
Qed.

End Shutdown.

(* ===================================================================== *)
(* 9. How entries enter and leave the table                               *)
(* ===================================================================== *)

Section Entries.
Import Http.
Implicit Types (st : Server) (k sid : string) (l : loc).

Lemma onclose_heap l st : heap (onclose l st).1 = heap st.
Proof. unfold onclose. by destruct (_ && _). Qed.

Lemma onclose_other l st k :
  heap st !! l ≫= sessionId ≠ Some k →
  own_get (transports (onclose l st).1) k = own_get (transports st) k.
Proof.
  intros Hsid. unfold onclose. destruct (_ && _) eqn:Hguard; [|reflexivity].
  cbn [fst transports with_transports]. rewrite own_get_delete.
  rewrite bool_decide_eq_false_2; [reflexivity|].
  intros Heq. apply Hsid.
  destruct (heap st !! l ≫= sessionId) as [s|]; [|discriminate Hguard].
  cbn in Heq. by rewrite Heq.
Qed.

Lemma onclose_entries l st k l' :
  own_get (transports (onclose l st).1) k = Some l' →
  own_get (transports st) k = Some l'.
Proof.
  unfold onclose. destruct (_ && _); [|done].
  cbn [fst transports with_transports]. rewrite own_get_delete.
  by case_bool_decide.
Qed.

Lemma onclose_uninitialized l st :
  heap st !! l ≫= sessionId = None → onclose l st = (st, []).
Proof. unfold onclose. by intros ->. Qed.

Lemma event_entries l ev st k l' :
  own_get (transports (sdk_event_step l ev st).1) k = Some l' →
  own_get (transports st) k = Some l' ∨ ARegister k l' ∈ (sdk_event_step l ev st).2.
Proof.
  destruct ev as [entropy| |]; cbn [sdk_event_step].
  - destruct (heap st !! l) as [[[sid0|]]|]; [by left| |by left].
    cbn [onsessioninitialized fst snd transports with_transports].
    rewrite own_get_set. case_bool_decide as Hk; [|by left].
    intros [= <-]. subst k. right. apply elem_of_cons. right. left.
  - destruct (heap st !! l) as [[[?|]]|]; by left.
  - intros H. left. by apply onclose_entries in H.
Qed.

Lemma events_entries l evs st k l' :
  own_get (transports (sdk_events l evs st).1) k = Some l' →
  own_get (transports st) k = Some l' ∨ ARegister k l' ∈ (sdk_events l evs st).2.
Proof.
  revert st. induction evs as [|ev evs IH]; intros st; [by left|].
  cbn [sdk_events].
  pose proof (event_entries l ev st k l') as Hev.
  destruct (sdk_event_step l ev st) as [st1 t1]. cbn [fst snd] in Hev.
  specialize (IH st1). destruct (sdk_events l evs st1) as [st2 t2].
  cbn [fst snd] in *. intros H. destruct (IH H) as [H1|H2].
  - destruct (Hev H1) as [H0|H0]; [by left|right].
    apply elem_of_app. by left.
  - right. apply elem_of_app. by right.
Qed.

Lemma handleRequest_entries v run st k l' :
  own_get (transports (h_state (handleRequest v run st))) k = Some l' →
  own_get (transports st) k = Some l'
  ∨ ARegister k l' ∈ h_trace (handleRequest v run st).
Proof.
  destruct v as [l| |]; cbn [handleRequest]; [|by left..].
  pose proof (events_entries l (run_events run) st k l') as Hev.
  destruct (sdk_events l (run_events run) st) as [st' tr].
  cbn [fst snd h_state h_trace] in *. intros H.
  destruct (Hev H); [by left|right]. by apply elem_of_cons; right.
Qed.

Lemma post_try_entries req run st k l' :
  own_get (transports (h_state (post_try req run st))) k = Some l' →
  own_get (transports st) k = Some l'
  ∨ ARegister k l' ∈ h_trace (post_try req run st).
Proof.
  unfold post_try. destruct (_ && _); [apply handleRequest_entries|].
  destruct (_ && _); [|by left].
  cbn [h_state h_trace]. intros H.
  apply handleRequest_entries in H as [H|H]; [by left|right].
  do 2 (apply elem_of_cons; right). exact H.
Qed.

Lemma sigint_entries closing st k l' :
  table_ok st →
  own_get (transports (final (sigint closing st))) k = Some l' →
  own_get (transports st) k = Some l'.
Proof.
  intros Hok.
  destruct (sigint_loop_spec (keys (transports st)) closing st Hok)
    as (_ & _ & Hget).
  { apply Hok. }
  { intros k0 Hk0. by apply own_get_Some. }
  unfold sigint. destruct (sigint_loop _ _ _) as [st' t].
  cbn [fst final] in *. rewrite Hget.
  destruct (own_get (transports st) k) as [l|]; [|done]. by destruct (_ && _).
Qed.

Lemma dispatch_entries i st k l' :
  table_ok st →
  own_get (transports (step i st)) k = Some l' →
  own_get (transports st) k = Some l' ∨ ARegister k l' ∈ trace (dispatch i st).
Proof.
  intros Hok. unfold step.
  destruct i as [req run|req run|req run|l|closing]; cbn [dispatch].
  - unfold post_mcp. pose proof (post_try_entries req run st k l') as Htry.
    destruct (h_thrown (post_try req run st)); cbn [final trace]; [|exact Htry].
    intros H. destruct (Htry H); [by left|right]. apply elem_of_app. by left.
  - unfold get_mcp. destruct (_ || _); cbn [final trace]; [by left|].
    apply handleRequest_entries.
  - unfold delete_mcp. destruct (_ || _); cbn [final trace]; [by left|].
    pose proof (handleRequest_entries
      (js_get (transports st) (default EmptyString (header_session_id req)))
      run st k l') as Hh.
    destruct (h_thrown _); cbn [final trace]; [|exact Hh].
    intros H. destruct (Hh H); [by left|right]. apply elem_of_app. by left.
  - cbn [final trace]. intros H. left. by apply onclose_entries in H.
  - intros H. left. by apply (sigint_entries closing).
Qed.

(** C9: in every reachable state each key of the table is the session
    identifier of the transport it maps to and keys are unique; the only
    way an operation adds an entry is the session-initialized callback;
    a transport's close signal leaves every entry other than the one keyed
    by its own session identifier, and a transport without session
    identifier removes nothing. *)
Theorem session_table_invariant st :
  reachable st →
  (NoDup (keys (transports st))
   ∧ ∀ k l, own_get (transports st) k = Some l →
            heap st !! l ≫= sessionId = Some k)
  ∧ (∀ i k l, own_get (transports (step i st)) k = Some l →
       own_get (transports st) k = Some l ∨ ARegister k l ∈ trace (dispatch i st))
  ∧ (∀ l k, heap st !! l ≫= sessionId ≠ Some k →
       own_get (transports (onclose l st).1) k = own_get (transports st) k)
  ∧ (∀ l, heap st !! l ≫= sessionId = None → onclose l st = (st, [])).
Proof.
  intros Hreach. pose proof (reachable_table_ok st Hreach) as Hok.
  split; [split|split; [|split]].
  - apply Hok.
  - intros k l Hk. destruct (ok_owner st Hok k l Hk) as (t & -> & Ht). exact Ht.
  - intros i k l. by apply dispatch_entries.
  - intros l k. apply onclose_other.
  - intros l. apply onclose_uninitialized.
Qed.

Lemma session_table_invariant_witness :
  reachable two_sessions
  ∧ ∀ k l, own_get (transports two_sessions) k = Some l →
           heap two_sessions !! l ≫= sessionId = Some k.
Proof.
  assert (Hreach : reachable two_sessions)
    by (do 2 apply reachable_step; apply reachable_initial).
  split; [exact Hreach|].
  exact (proj2 (proj1 (session_table_invariant two_sessions Hreach))).
Defined.

End Entries.

(* ===================================================================== *)
(* 10. POST /mcp                                                          *)
(* ===================================================================== *)

Section Post.
Import Http.
Implicit Types (st : Server) (k sid : string) (l : loc).






End Post.

(* ===================================================================== *)
(* 11. Rejections and failures                                            *)
(* ===================================================================== *)

Section Rejections.
Import Http.
Implicit Types (st : Server) (k sid : string) (l : loc).

Lemma no_session_guard st header :
  no_session st header →
  truthy_opt header
  && js_truthy (js_get (transports st) (default EmptyString header)) = false.
Proof.
  intros [->|(sid & -> & Hown & Hproto)]; [reflexivity|].
  cbn. rewrite js_get_unknown by done. apply andb_false_r.
Qed.

(** The part of C3 that the code does satisfy. *)
Lemma post_without_session_rejected st req run :
  no_session st (header_session_id req) →
  (truthy_opt (header_session_id req) = false → body_is_initialize req = false) →
  post_mcp req run st
  = {| final := st; trace := [ARespond 400 bad_request]; rejected := None |}.
Proof.
  intros Hno Hbody. unfold post_mcp, post_try.
  rewrite (no_session_guard st _ Hno).
  destruct (truthy_opt (header_session_id req)); cbn [negb andb]; [reflexivity|].
  by rewrite Hbody.
Qed.

Lemma get_without_session_rejected st req run :
  no_session st (header_session_id req) →
  get_mcp req run st
  = {| final := st; trace := [ARespond 400 invalid_session]; rejected := None |}.
Proof.
  intros Hno. unfold get_mcp. rewrite <- negb_andb.
  by rewrite (no_session_guard st _ Hno).
Qed.

Lemma delete_without_session_rejected st req run :
  no_session st (header_session_id req) →
  delete_mcp req run st
  = {| final := st; trace := [ARespond 400 invalid_session]; rejected := None |}.
Proof.
  intros Hno. unfold delete_mcp. rewrite <- negb_andb.
  by rewrite (no_session_guard st _ Hno).
Qed.

(** C3 at a header that names a property every object inherits: the lookup
    [transports[sessionId]] is truthy although no such session exists, so
    the guards let the request through; POST and DELETE answer 500, GET
    throws out of its handler.  The state is left alone. *)
Theorem inherited_property_name_passes_guard (b : bool) (run : sdk_run) :
  let req := {| header_session_id := Some "constructor"; body_is_initialize := b |} in
  own_get (transports initial) "constructor" = None
  ∧ post_mcp req run initial
    = {| final := initial;
         trace := [ AConsoleError "Error handling MCP request:"
                      (ErrorObject "transport.handleRequest is not a function");
                    ARespond 500 internal_error ];
         rejected := None |}
  ∧ get_mcp req run initial
    = {| final := initial; trace := [];
         rejected := Some (ErrorObject "transport.handleRequest is not a function") |}
  ∧ delete_mcp req run initial
    = {| final := initial;
         trace := [ AConsoleError "Error handling session termination:"
                      (ErrorObject "transport.handleRequest is not a function");
                    ARespond 500 termination_error ];
         rejected := None |}.
Proof. repeat split. Qed.

(** A failure of the transport on a POST or DELETE of a registered session
    is logged by the handler's own catch clause, and answered with 500
    exactly when no response has been started. *)
Lemma post_failure_response st req run sid l error :
  table_ok st →
  header_session_id req = Some sid →
  own_get (transports st) sid = Some l →
  run_throws run = Some error →
  trace (post_mcp req run st)
  = AHandle l :: (sdk_events l (run_events run) st).2
    ++ AConsoleError "Error handling MCP request:" error
    :: (if run_headersSent run then [] else [ARespond 500 internal_error])
  ∧ rejected (post_mcp req run st) = None.
Proof.
  intros Hok Hhdr Hsid Hthrows.
  destruct (registered_key st sid l Hok Hsid) as (Htruthy & Hget & _).
  unfold post_mcp, post_try. rewrite Hhdr. cbn. rewrite Htruthy, Hget. cbn.
  destruct (sdk_events l (run_events run) st) as [st' tr]. cbn.
  rewrite Hthrows. cbn. split; [by destruct (run_headersSent run)|done].
Qed.

Lemma post_initialize_failure_response st req run error :
  truthy_opt (header_session_id req) = false →
  body_is_initialize req = true →
  run_throws run = Some error →
  ∃ tr, trace (post_mcp req run st)
        = ANew (length (heap st)) :: AConnect (length (heap st)) :: tr
          ++ AConsoleError "Error handling MCP request:" error
          :: (if run_headersSent run then [] else [ARespond 500 internal_error])
  ∧ rejected (post_mcp req run st) = None.
Proof.
  intros Hhdr Hinit Hthrows. unfold post_mcp, post_try.
  rewrite Hhdr, Hinit. cbn [andb negb]. unfold handleRequest.
  destruct (sdk_events _ _ _) as [st' tr]. cbn. rewrite Hthrows. cbn.
  exists (AHandle (length (heap st)) :: tr).
  split; [by destruct (run_headersSent run)|reflexivity].
Qed.

Lemma delete_failure_response st req run sid l error :
  table_ok st →
  header_session_id req = Some sid →
  own_get (transports st) sid = Some l →
  run_throws run = Some error →
  trace (delete_mcp req run st)
  = AHandle l :: (sdk_events l (run_events run) st).2
    ++ AConsoleError "Error handling session termination:" error
    :: (if run_headersSent run then [] else [ARespond 500 termination_error])
  ∧ rejected (delete_mcp req run st) = None.
Proof.
  intros Hok Hhdr Hsid Hthrows.
  destruct (registered_key st sid l Hok Hsid) as (Htruthy & Hget & _).
  unfold delete_mcp. rewrite Hhdr. cbn. rewrite Htruthy, Hget. cbn.
  destruct (sdk_events l (run_events run) st) as [st' tr]. cbn.
  rewrite Hthrows. cbn. split; [by destruct (run_headersSent run)|done].
Qed.

(** The GET handler has no [catch] of its own: when the transport of a
    registered session throws, the exception leaves the route handler and
    is left to the application; the same request as a DELETE is logged and
    answered with 500 by the handler itself. *)
Lemma get_failure_escapes :
  let req := {| header_session_id := Some (randomUUID 0); body_is_initialize := false |} in
  own_get (transports one_session) (randomUUID 0) = Some 0
  ∧ get_mcp req failing_run one_session
    = {| final := one_session; trace := [AHandle 0];
         rejected := Some (ErrorObject "stream failure") |}
  ∧ delete_mcp req failing_run one_session
    = {| final := one_session;
         trace := [ AHandle 0;
                    AConsoleError "Error handling session termination:"
                      (ErrorObject "stream failure");
                    ARespond 500 termination_error ];
         rejected := None |}.
Proof. repeat split. Qed.

End Rejections.

(* ===================================================================== *)
(* 12. More on the tool handler                                           *)
(* ===================================================================== *)

Section ToolHandlerMore.
Import Tools.

Lemma app_String c s t : String c s +:+ t = String c (s +:+ t).
Proof. reflexivity. Qed.

Lemma app_assoc_string s t u : (s +:+ t) +:+ u = s +:+ (t +:+ u).
Proof.
  induction s as [|c s IH]; [reflexivity|]. rewrite !app_String. by rewrite IH.
Qed.

Lemma json_read_escape_char c rest :
  json_read (json_escape_char c +:+ rest) = String c (json_read rest).
Proof.
  destruct c as [[] [] [] [] [] [] [] []]; reflexivity.
Qed.

Lemma json_read_escape s rest :
  json_read (json_escape s +:+ String dquote rest) = s.
Proof.
  induction s as [|c s IH]; [reflexivity|].
  cbn [json_escape]. rewrite app_assoc_string, json_read_escape_char.
  by rewrite IH.
Qed.

Lemma JSON_stringify_inj key value1 value2 :
  JSON_stringify key value1 = JSON_stringify key value2 → value1 = value2.
Proof.
  unfold JSON_stringify. intros H.
  apply (inj (String.app _)) in H. injection H as H.
  repeat apply (inj (String.app _)) in H.
  unfold json_quote in H. rewrite !app_String in H. injection H as H.
  rewrite !app_assoc_string, !app_String in H.
  apply (f_equal json_read) in H. by rewrite !json_read_escape in H.
Qed.

Lemma text_result_inj t1 t2 e1 e2 :
  Normal (text_result t1 e1) = Normal (text_result t2 e2) → t1 = t2.
Proof. by intros [= ? ?]. Qed.

(** X1: the answer of get_hostname determines the hostname: two calls that
    return the same result saw the same hostname. *)
Theorem get_hostname_result_determines_hostname request1 request2 os1 os2 h1 h2 :
  name request1 = "get_hostname" →
  name request2 = "get_hostname" →
  os_hostname os1 = Normal h1 →
  os_hostname os2 = Normal h2 →
  call_tool request1 os1 = call_tool request2 os2 →
  h1 = h2.
Proof.
  intros Hn1 Hn2 Hos1 Hos2. unfold call_tool, call_tool_switch.
  rewrite Hn1, Hn2, Hos1, Hos2.
  rewrite bool_decide_eq_true_2 by reflexivity. cbn [bind try_catch].
  intros H. apply text_result_inj in H. by apply JSON_stringify_inj in H.
Qed.

Lemma get_hostname_result_determines_hostname_witness :
  String (ascii_of_nat 34) "quoted" = String (ascii_of_nat 34) "quoted".
Proof.
  exact (get_hostname_result_determines_hostname
           {| name := "get_hostname"; arguments := None |}
           {| name := "get_hostname"; arguments := Some JNull |}
           {| os_hostname := Normal (String (ascii_of_nat 34) "quoted");
              os_networkInterfaces := Normal [] |}
           {| os_hostname := Normal (String (ascii_of_nat 34) "quoted");
              os_networkInterfaces := Throw (OtherValue "x") |}
           _ _ eq_refl eq_refl eq_refl eq_refl eq_refl).
Defined.

(** X2: the tools that the listing advertises are exactly the names that
    dispatch knows: a name is listed if and only if some OS state makes the
    call answer with something other than the unknown-tool error. *)
Theorem listed_tools_are_the_dispatched_ones tool args :
  tool ∈ (tool_name <$> list_tools)
  ↔ ∃ os, call_tool {| name := tool; arguments := args |} os
          ≠ Normal (text_result
                      (JSON_stringify "error" ("Unknown tool: " +:+ tool)) true).
Proof.
  split.
  - intros Hin. exists example_os. cbn in Hin.
    apply elem_of_cons in Hin as [->|Hin]; [discriminate|].
    apply elem_of_cons in Hin as [->|Hin]; [discriminate|].
    by apply elem_of_nil in Hin.
  - intros [os Hos].
    destruct (decide (tool = "get_hostname")) as [->|H1]; [left|].
    destruct (decide (tool = "get_ip_address")) as [->|H2]; [right; left|].
    destruct Hos. unfold call_tool, call_tool_switch. cbn [name].
    by rewrite !bool_decide_eq_false_2.
Qed.

Lemma scan_interfaces_selected interfaces ipAddress :
  truthy_opt ipAddress = false →
  match selected interfaces with
  | Some a => scan_interfaces interfaces ipAddress = Some a ∧ truthy_string a = true
  | None => truthy_opt (scan_interfaces interfaces ipAddress) = false
  end.
Proof.
  unfold selected. revert ipAddress.
  induction interfaces as [|[ifname addresses] rest IH]; intros ipAddress Hfalsy;
    [exact Hfalsy|].
  cbn [scan_interfaces omap list_omap snd].
  destruct addresses as [addrs|]; cbn [candidate mbind option_bind];
    [|by apply IH].
  rewrite scan_addresses_first.
  destruct (head (filter (λ a, qualifies a = true) addrs)) as [a|];
    cbn [fmap option_fmap option_map]; [|rewrite Hfalsy; by apply IH].
  rewrite filter_cons. cbn [truthy_opt].
  destruct (decide (truthy_string (address a) = true)) as [Ha|Ha].
  - rewrite Ha. by cbn.
  - apply not_true_is_false in Ha. rewrite Ha. by apply IH.
Qed.

(** X3: the exact selection rule of get_ip_address, with no assumption on
    the enumeration: each interface contributes only its first IPv4,
    non-internal address, and the answer is the first such candidate that
    is a non-empty text; when there is none the fixed error payload is
    returned with the error flag. *)
Theorem get_ip_address_exact_rule request os interfaces :
  name request = "get_ip_address" →
  os_networkInterfaces os = Normal interfaces →
  call_tool request os =
    Normal (match selected interfaces with
            | Some a => text_result (JSON_stringify "ipAddress" a) false
            | None =>
                text_result (JSON_stringify "error" "No external IPv4 address found") true
            end).
Proof.
  intros Hname Hos. unfold call_tool, call_tool_switch. rewrite Hname, Hos.
  rewrite bool_decide_eq_false_2 by discriminate.
  rewrite bool_decide_eq_true_2 by reflexivity. cbn [bind].
  pose proof (scan_interfaces_selected interfaces None eq_refl) as Hsel.
  destruct (selected interfaces) as [a|].
  - destruct Hsel as [-> Ha]. cbn. by rewrite Ha.
  - by rewrite Hsel.
Qed.

Lemma get_ip_address_exact_rule_witness :
  call_tool {| name := "get_ip_address"; arguments := None |}
    {| os_hostname := Normal "vpn-host"; os_networkInterfaces := Normal odd_interfaces |}
  = Normal (text_result (JSON_stringify "ipAddress" "192.168.1.20") false).
Proof.
  exact (get_ip_address_exact_rule
           {| name := "get_ip_address"; arguments := None |}
           {| os_hostname := Normal "vpn-host";
              os_networkInterfaces := Normal odd_interfaces |}
           odd_interfaces eq_refl eq_refl).
Defined.

(** X4: the error flag is absent exactly when a value was obtained: for
    get_hostname when the OS call returned, for get_ip_address when the
    enumeration returned and an address was selected; every other call,
    whatever its name, carries the flag. *)
Theorem error_flag_iff_no_value request os r :
  call_tool request os = Normal r →
  (isError r = false
   ↔ (name request = "get_hostname" ∧ ∃ h, os_hostname os = Normal h)
     ∨ (name request = "get_ip_address"
        ∧ ∃ interfaces a, os_networkInterfaces os = Normal interfaces
                          ∧ selected interfaces = Some a)).
Proof.
  unfold call_tool, call_tool_switch.
  destruct (decide (name request = "get_hostname")) as [H1|H1].
  - rewrite bool_decide_eq_true_2 by done.
    destruct (os_hostname os) as [h|e]; cbn; intros [= <-]; cbn.
    + split; [intros _; left; eauto|done].
    + split; [done|]. intros [[_ [h Hh]]|[H2 _]]; [done|]. congruence.
  - rewrite bool_decide_eq_false_2 by done.
    destruct (decide (name request = "get_ip_address")) as [H2|H2].
    + rewrite bool_decide_eq_true_2 by done.
      destruct (os_networkInterfaces os) as [interfaces|e]; cbn [bind try_catch].
      * pose proof (scan_interfaces_selected interfaces None eq_refl) as Hsel.
        destruct (selected interfaces) as [a|] eqn:Hs.
        -- destruct Hsel as [-> Ha]. cbn. rewrite Ha. cbn. intros [= <-]. cbn.
           split; [intros _; right; eauto|done].
        -- rewrite Hsel. cbn. intros [= <-]. cbn. split; [done|].
           intros [[? _]|[_ (ifs & a & [= <-] & Ha)]]; [done|]. congruence.
      * intros [= <-]. cbn. split; [done|].
        intros [[? _]|[_ (ifs & a & ? & _)]]; done.
    + rewrite bool_decide_eq_false_2 by done. cbn. intros [= <-]. cbn.
      split; [done|]. by intros [[? _]|[? _]].
Qed.

Lemma error_flag_iff_no_value_witness :
  isError (text_result (JSON_stringify "error" "No external IPv4 address found") true)
  = false
  ↔ ("get_ip_address" = "get_hostname" ∧ ∃ h, Normal "h" = Normal h)
    ∨ ("get_ip_address" = "get_ip_address"
       ∧ ∃ interfaces a,
           Normal [("lo", Some [ {| address := "127.0.0.1"; family := "IPv4";
                                    internal := true |} ])] = Normal interfaces
           ∧ selected interfaces = Some a).
Proof.
  exact (error_flag_iff_no_value
           {| name := "get_ip_address"; arguments := None |}
           {| os_hostname := Normal "h";
              os_networkInterfaces :=
                Normal [("lo", Some [ {| address := "127.0.0.1"; family := "IPv4";
                                         internal := true |} ])] |}
           _ eq_refl).
Defined.

End ToolHandlerMore.

(* ===================================================================== *)
(* 13. More on the session table                                          *)
(* ===================================================================== *)

Section SessionsMore.
Import Http.
Implicit Types (st : Server) (k sid : string) (l : loc).

Lemma js_delete_absent (o : list (string * loc)) k :
  own_get o k = None → js_delete o k = o.
Proof.
  unfold js_delete. induction o as [|[k0 l0] o IH]; [done|].
  cbn [own_get]. case_bool_decide as Hk; [discriminate|]. intros Hnone.
  rewrite filter_cons. cbn [fst]. destruct (decide (k0 ≠ k)); [|done].
  by rewrite IH.
Qed.

Lemma onclose_actions l st : Forall (λ a, is_callback_action a = true) (onclose l st).2.
Proof. unfold onclose. destruct (_ && _); cbn [snd]; by repeat constructor. Qed.

Lemma event_actions l ev st :
  Forall (λ a, is_callback_action a = true) (sdk_event_step l ev st).2.
Proof.
  destruct ev as [entropy| |]; cbn [sdk_event_step].
  - destruct (heap st !! l) as [[[sid0|]]|]; cbn; by repeat constructor.
  - destruct (heap st !! l) as [[[sid0|]]|]; cbn; by repeat constructor.
  - apply onclose_actions.
Qed.

Lemma events_actions l evs st :
  Forall (λ a, is_callback_action a = true) (sdk_events l evs st).2.
Proof.
  revert st. induction evs as [|ev evs IH]; intros st; [constructor|].
  cbn [sdk_events]. pose proof (event_actions l ev st) as Hev.
  destruct (sdk_event_step l ev st) as [st1 t1]. specialize (IH st1).
  destruct (sdk_events l evs st1) as [st2 t2]. cbn [snd] in *.
  by apply Forall_app.
Qed.

(** What handling one call can do to the table when the transport already
    has its session identifier: nothing, or remove the entry of that
    identifier. *)
Lemma events_registered l sid evs st :
  heap st !! l = Some {| sessionId := Some sid |} →
  truthy_string sid = true →
  sid ∉ object_prototype_names →
  heap (sdk_events l evs st).1 = heap st
  ∧ transports (sdk_events l evs st).1
    = if bool_decide (Close ∈ evs) then js_delete (transports st) sid
      else transports st.
Proof.
  intros Hl Htruthy Hproto. revert st Hl.
  induction evs as [|ev evs IH]; intros st Hl.
  - cbn [sdk_events fst]. rewrite bool_decide_eq_false_2; [done|].
    apply not_elem_of_nil.
  - cbn [sdk_events].
    assert (Hstep : heap (sdk_event_step l ev st).1 = heap st
              ∧ transports (sdk_event_step l ev st).1
                = if bool_decide (ev = Close) then js_delete (transports st) sid
                  else transports st).
    { destruct ev as [entropy| |]; cbn [sdk_event_step].
      - rewrite Hl. by rewrite bool_decide_eq_false_2.
      - rewrite Hl. by rewrite bool_decide_eq_false_2.
      - rewrite bool_decide_eq_true_2 by done. unfold onclose. rewrite Hl.
        cbn. rewrite Htruthy. cbn [andb].
        destruct (own_get (transports st) sid) as [l'|] eqn:Hown.
        + by rewrite (js_get_own _ _ _ Hown).
        + rewrite js_get_unknown by done. cbn.
          by rewrite js_delete_absent. }
    destruct (sdk_event_step l ev st) as [st1 t1]. cbn [fst] in Hstep.
    destruct Hstep as [Hheap1 Htr1].
    destruct (IH st1) as [Hheap2 Htr2]; [by rewrite Hheap1|].
    destruct (sdk_events l evs st1) as [st2 t2]. cbn [fst] in *.
    split; [by rewrite Hheap2|]. rewrite Htr2, Htr1.
    destruct (decide (ev = Close)) as [->|Hev].
    + rewrite (bool_decide_eq_true_2 (Close = Close)) by done.
      rewrite (bool_decide_eq_true_2 (Close ∈ Close :: evs)) by left.
      by destruct (bool_decide (Close ∈ evs)); rewrite ?js_delete_twice.
    + rewrite (bool_decide_eq_false_2 (ev = Close)) by done.
      apply (f_equal (λ b : bool, if b then _ else _)).
      apply bool_decide_ext. rewrite elem_of_cons.
      split; [by right|]. intros [Heq|H]; [by destruct Hev|exact H].
Qed.

(** The three handlers on a request that carries a registered identifier. *)
Lemma registered_request st req run sid l :
  table_ok st →
  header_session_id req = Some sid →
  own_get (transports st) sid = Some l →
  heap (sdk_events l (run_events run) st).1 = heap st
  ∧ transports (sdk_events l (run_events run) st).1
    = (if bool_decide (Close ∈ run_events run) then js_delete (transports st) sid
       else transports st)
  ∧ post_mcp req run st
    = {| final := (sdk_events l (run_events run) st).1;
         trace := AHandle l :: (sdk_events l (run_events run) st).2
                  ++ failure_tail "Error handling MCP request:" internal_error run;
         rejected := None |}
  ∧ get_mcp req run st
    = {| final := (sdk_events l (run_events run) st).1;
         trace := AHandle l :: (sdk_events l (run_events run) st).2;
         rejected := run_throws run |}
  ∧ delete_mcp req run st
    = {| final := (sdk_events l (run_events run) st).1;
         trace := AHandle l :: (sdk_events l (run_events run) st).2
                  ++ failure_tail "Error handling session termination:"
                       termination_error run;
         rejected := None |}.
Proof.
  intros Hok Hhdr Hsid.
  destruct (registered_key st sid l Hok Hsid) as (Htruthy & Hget & Hheap).
  assert (Hproto : sid ∉ object_prototype_names).
  { apply length_36_not_inherited. by apply (ok_uuid st Hok l _ sid Hheap). }
  destruct (events_registered l sid (run_events run) st Hheap Htruthy Hproto)
    as [Hh Ht].
  split; [exact Hh|]. split; [exact Ht|].
  unfold post_mcp, post_try, get_mcp, delete_mcp, failure_tail.
  rewrite Hhdr. cbn. rewrite Htruthy, Hget. cbn.
  destruct (sdk_events l (run_events run) st) as [st' tr]. cbn.
  destruct (run_throws run); cbn; by rewrite ?app_nil_r.
Qed.

(** A request whose identifier is a well-formed one that is not in the
    table. *)
Lemma unregistered_request st req run sid :
  header_session_id req = Some sid →
  truthy_string sid = true →
  own_get (transports st) sid = None →
  sid ∉ object_prototype_names →
  post_mcp req run st
  = {| final := st; trace := [ARespond 400 bad_request]; rejected := None |}
  ∧ get_mcp req run st
    = {| final := st; trace := [ARespond 400 invalid_session]; rejected := None |}
  ∧ delete_mcp req run st
    = {| final := st; trace := [ARespond 400 invalid_session]; rejected := None |}.
Proof.
  intros Hhdr Htruthy Hown Hproto.
  assert (Hguard : js_truthy (js_get (transports st) sid) = false)
    by by rewrite js_get_unknown.
  unfold post_mcp, post_try, get_mcp, delete_mcp. rewrite Hhdr. cbn.
  by rewrite Hguard, Htruthy.
Qed.

End SessionsMore.

(* ===================================================================== *)
(* 14. Session lifecycle                                                  *)
(* ===================================================================== *)

Section Lifecycle.
Import Http.
Implicit Types (st : Server) (k sid : string) (l : loc).

(** X5: an empty [mcp-session-id] header is treated exactly like a missing
    one by all three handlers; in particular an initialize POST with an
    empty header opens a session. *)
Theorem empty_header_is_absent (b : bool) (run : sdk_run) st :
  post_mcp {| header_session_id := Some EmptyString; body_is_initialize := b |} run st
  = post_mcp {| header_session_id := None; body_is_initialize := b |} run st
  ∧ get_mcp {| header_session_id := Some EmptyString; body_is_initialize := b |} run st
    = {| final := st; trace := [ARespond 400 invalid_session]; rejected := None |}
  ∧ delete_mcp {| header_session_id := Some EmptyString; body_is_initialize := b |} run st
    = {| final := st; trace := [ARespond 400 invalid_session]; rejected := None |}.
Proof. repeat split. Qed.

(** X6: a request whose header is absent, empty, or a text that is neither
    a registered identifier nor the name of an inherited property is
    answered with 400 and changes nothing: always on GET and DELETE, and on
    POST unless it is an initialize call without identifier. *)
Theorem unknown_session_rejected st req run :
  no_session st (header_session_id req) →
  get_mcp req run st
  = {| final := st; trace := [ARespond 400 invalid_session]; rejected := None |}
  ∧ delete_mcp req run st
    = {| final := st; trace := [ARespond 400 invalid_session]; rejected := None |}
  ∧ ((truthy_opt (header_session_id req) = false → body_is_initialize req = false) →
     post_mcp req run st
     = {| final := st; trace := [ARespond 400 bad_request]; rejected := None |}).
Proof.
  intros Hno. pose proof (no_session_guard st _ Hno) as Hguard.
  unfold get_mcp, delete_mcp, post_mcp, post_try.
  rewrite <- !negb_andb, Hguard. cbn [negb].
  split; [done|]. split; [done|]. intros Hbody.
  destruct (truthy_opt (header_session_id req)); cbn [negb andb]; [done|].
  by rewrite Hbody.
Qed.

Lemma unknown_session_rejected_witness :
  get_mcp {| header_session_id := Some "no-such-session"; body_is_initialize := false |}
    closing_run one_session
  = {| final := one_session; trace := [ARespond 400 invalid_session];
       rejected := None |}.
Proof.
  apply (unknown_session_rejected one_session
           {| header_session_id := Some "no-such-session"; body_is_initialize := false |}
           closing_run).
  right. exists "no-such-session". split; [reflexivity|]. split; [reflexivity|].
  vm_compute. intros H.
  repeat (apply elem_of_cons in H as [H|H]; [discriminate H|]).
  by apply elem_of_nil in H.
Defined.

(** X7: a DELETE during which the transport signals close removes exactly
    the entry of its session, and from then on every POST, GET or DELETE
    that carries this identifier is answered with 400 and changes nothing:
    termination is not idempotent. *)
Theorem terminate_is_final st req run sid l :
  reachable st →
  header_session_id req = Some sid →
  own_get (transports st) sid = Some l →
  Close ∈ run_events run →
  heap (final (delete_mcp req run st)) = heap st
  ∧ transports (final (delete_mcp req run st)) = js_delete (transports st) sid
  ∧ ∀ req' run', header_session_id req' = Some sid →
      post_mcp req' run' (final (delete_mcp req run st))
      = {| final := final (delete_mcp req run st);
           trace := [ARespond 400 bad_request]; rejected := None |}
      ∧ get_mcp req' run' (final (delete_mcp req run st))
        = {| final := final (delete_mcp req run st);
             trace := [ARespond 400 invalid_session]; rejected := None |}
      ∧ delete_mcp req' run' (final (delete_mcp req run st))
        = {| final := final (delete_mcp req run st);
             trace := [ARespond 400 invalid_session]; rejected := None |}.
Proof.
  intros Hreach Hhdr Hsid Hclose.
  pose proof (reachable_table_ok st Hreach) as Hok.
  destruct (registered_key st sid l Hok Hsid) as (Htruthy & _ & Hheap).
  assert (Hproto : sid ∉ object_prototype_names).
  { apply length_36_not_inherited. by apply (ok_uuid st Hok l _ sid Hheap). }
  destruct (registered_request st req run sid l Hok Hhdr Hsid)
    as (Hh & Ht & _ & _ & ->).
  cbn [final]. rewrite bool_decide_eq_true_2 in Ht by done.
  split; [exact Hh|]. split; [exact Ht|].
  intros req' run' Hhdr'. apply (unregistered_request _ req' run' sid); try done.
  rewrite Ht, own_get_delete. by rewrite bool_decide_eq_true_2.
Qed.

Lemma terminate_is_final_witness :
  transports
    (final (delete_mcp {| header_session_id := Some (randomUUID 0);
                          body_is_initialize := false |} closing_run two_sessions))
  = js_delete (transports two_sessions) (randomUUID 0).
Proof.
  assert (Hreach : reachable two_sessions)
    by (do 2 apply reachable_step; apply reachable_initial).
  apply (terminate_is_final two_sessions
           {| header_session_id := Some (randomUUID 0); body_is_initialize := false |}
           closing_run (randomUUID 0) 0 Hreach eq_refl eq_refl).
  left.
Defined.

(** X8: when the transport of a registered session signals close on its
    own, its entry is removed, and a later request with that identifier is
    answered with 400. *)
Theorem disconnect_unregisters st sid l :
  reachable st →
  own_get (transports st) sid = Some l →
  heap (step (Disconnect l) st) = heap st
  ∧ transports (step (Disconnect l) st) = js_delete (transports st) sid
  ∧ ∀ req' run', header_session_id req' = Some sid →
      trace (post_mcp req' run' (step (Disconnect l) st)) = [ARespond 400 bad_request]
      ∧ trace (get_mcp req' run' (step (Disconnect l) st))
        = [ARespond 400 invalid_session]
      ∧ trace (delete_mcp req' run' (step (Disconnect l) st))
        = [ARespond 400 invalid_session].
Proof.
  intros Hreach Hsid. pose proof (reachable_table_ok st Hreach) as Hok.
  destruct (registered_key st sid l Hok Hsid) as (Htruthy & _ & Hheap).
  assert (Hproto : sid ∉ object_prototype_names).
  { apply length_36_not_inherited. by apply (ok_uuid st Hok l _ sid Hheap). }
  unfold step. cbn [dispatch final]. rewrite (onclose_registered st sid l Hok Hsid).
  cbn [fst with_transports heap transports].
  split; [done|]. split; [done|]. intros req' run' Hhdr'.
  destruct (unregistered_request
              (with_transports st (js_delete (transports st) sid)) req' run' sid)
    as (-> & -> & ->); try done.
  cbn [transports with_transports]. rewrite own_get_delete.
  by rewrite bool_decide_eq_true_2.
Qed.

Lemma disconnect_unregisters_witness :
  transports (step (Disconnect 1) two_sessions)
  = js_delete (transports two_sessions) (randomUUID 1).
Proof.
  assert (Hreach : reachable two_sessions)
    by (do 2 apply reachable_step; apply reachable_initial).
  exact (proj1 (proj2 (disconnect_unregisters two_sessions (randomUUID 1) 1
                         Hreach eq_refl))).
Defined.

(** X9: a POST, GET or DELETE that carries a registered identifier is
    handed to the transport registered under it, and the only thing it can
    change is the entry of that identifier, which is removed when the
    transport signals close during the call: the entries of all other
    sessions and all transports are as before. *)
Theorem request_touches_only_its_session st req run sid l :
  reachable st →
  header_session_id req = Some sid →
  own_get (transports st) sid = Some l →
  ∀ o, o = post_mcp req run st ∨ o = get_mcp req run st ∨ o = delete_mcp req run st →
    (∃ rest, trace o = AHandle l :: rest)
    ∧ heap (final o) = heap st
    ∧ transports (final o)
      = (if bool_decide (Close ∈ run_events run) then js_delete (transports st) sid
         else transports st)
    ∧ ∀ k, k ≠ sid → own_get (transports (final o)) k = own_get (transports st) k.
Proof.
  intros Hreach Hhdr Hsid o Ho.
  pose proof (reachable_table_ok st Hreach) as Hok.
  destruct (registered_request st req run sid l Hok Hhdr Hsid)
    as (Hh & Ht & Hpost & Hget & Hdel).
  assert (Hfinal : final o = (sdk_events l (run_events run) st).1
                   ∧ ∃ rest, trace o = AHandle l :: rest).
  { destruct Ho as [->|[->| ->]]; [rewrite Hpost|rewrite Hget|rewrite Hdel];
      cbn [final trace]; eauto. }
  destruct Hfinal as [-> Htrace].
  split; [exact Htrace|]. split; [exact Hh|]. split; [exact Ht|].
  intros k Hk. rewrite Ht. destruct (bool_decide (Close ∈ run_events run)); [|done].
  rewrite own_get_delete. by rewrite bool_decide_eq_false_2.
Qed.

Lemma request_touches_only_its_session_witness :
  own_get
    (transports
       (final (delete_mcp {| header_session_id := Some (randomUUID 1);
                             body_is_initialize := false |} closing_run two_sessions)))
    (randomUUID 0)
  = own_get (transports two_sessions) (randomUUID 0).
Proof.
  assert (Hreach : reachable two_sessions)
    by (do 2 apply reachable_step; apply reachable_initial).
  refine (proj2 (proj2 (proj2 (request_touches_only_its_session two_sessions
            {| header_session_id := Some (randomUUID 1); body_is_initialize := false |}
            closing_run (randomUUID 1) 1 Hreach eq_refl eq_refl _
            (or_intror (or_intror eq_refl))))) (randomUUID 0) _).
  discriminate.
Defined.

End Lifecycle.

(* ===================================================================== *)
(* 15. Transports, failures and start-up                                  *)
(* ===================================================================== *)

Section TransportsAndFailures.
Import Http.
Implicit Types (st : Server) (k sid : string) (l : loc).

Lemma count_new_app t1 t2 : count_new (t1 ++ t2) = count_new t1 + count_new t2.
Proof. unfold count_new. by rewrite filter_app, length_app. Qed.

Lemma count_new_callback t :
  Forall (λ a, is_callback_action a = true) t → count_new t = 0.
Proof.
  unfold count_new. induction 1 as [|a t Ha _ IH]; [done|].
  rewrite filter_cons. destruct (decide (is_new a = true)) as [Hnew|_]; [|exact IH].
  by destruct a.
Qed.

(** Handling events never removes a transport and never changes a session
    identifier that has been assigned. *)
Lemma events_heap l0 evs st :
  length (heap (sdk_events l0 evs st).1) = length (heap st)
  ∧ ∀ l sid, heap st !! l = Some {| sessionId := Some sid |} →
             heap (sdk_events l0 evs st).1 !! l = Some {| sessionId := Some sid |}.
Proof.
  revert st. induction evs as [|ev evs IH]; intros st; [done|].
  cbn [sdk_events].
  assert (Hstep : length (heap (sdk_event_step l0 ev st).1) = length (heap st)
            ∧ ∀ l sid, heap st !! l = Some {| sessionId := Some sid |} →
                heap (sdk_event_step l0 ev st).1 !! l
                = Some {| sessionId := Some sid |}).
  { destruct ev as [entropy| |]; cbn [sdk_event_step].
    - destruct (heap st !! l0) as [[[sid0|]]|] eqn:Hl0; [done| |done].
      cbn [onsessioninitialized fst heap with_transports].
      split; [apply length_insert|]. intros l sid Hl.
      rewrite list_lookup_insert_ne; [exact Hl|]. intros <-. congruence.
    - by destruct (heap st !! l0) as [[[?|]]|].
    - by rewrite onclose_heap. }
  destruct (sdk_event_step l0 ev st) as [st1 t1]. cbn [fst] in Hstep.
  destruct Hstep as [Hlen1 Hsid1]. destruct (IH st1) as [Hlen2 Hsid2].
  destruct (sdk_events l0 evs st1) as [st2 t2]. cbn [fst] in *.
  split; [congruence|]. intros l sid Hl. by apply Hsid2, Hsid1.
Qed.

Lemma handleRequest_heap v run st :
  (length (heap (h_state (handleRequest v run st))) = length (heap st)
   ∧ ∀ l sid, heap st !! l = Some {| sessionId := Some sid |} →
       heap (h_state (handleRequest v run st)) !! l
       = Some {| sessionId := Some sid |})
  ∧ count_new (h_trace (handleRequest v run st)) = 0.
Proof.
  destruct v as [l0| |]; cbn [handleRequest]; [|done..].
  pose proof (events_heap l0 (run_events run) st) as Hheap.
  pose proof (events_actions l0 (run_events run) st) as Hact.
  destruct (sdk_events l0 (run_events run) st) as [st' tr]. cbn [fst snd] in *.
  split; [exact Hheap|]. by apply (count_new_callback tr).
Qed.

Lemma sigint_loop_heap pending closing st :
  heap (sigint_loop pending closing st).1 = heap st
  ∧ count_new (sigint_loop pending closing st).2 = 0.
Proof.
  revert st. induction pending as [|k pending IH]; intros st; [done|].
  cbn [sigint_loop]. destruct (own_get (transports st) k) as [l|]; [|apply IH].
  assert (Hmid : heap (if close_signals (closing l) then onclose l st else (st, [])).1
                 = heap st
                 ∧ count_new
                     (if close_signals (closing l) then onclose l st else (st, [])).2
                   = 0).
  { destruct (close_signals (closing l)); [|done].
    split; [apply onclose_heap|apply count_new_callback, onclose_actions]. }
  destruct (if close_signals (closing l) then onclose l st else (st, []))
    as [st1 t1]. cbn [fst snd] in Hmid. destruct Hmid as [Hheap1 Hnew1].
  destruct (close_throws (closing l)).
  - destruct (IH st1) as [Hheap2 Hnew2].
    destruct (sigint_loop pending closing st1) as [st3 t3]. cbn [fst snd] in *.
    split; [congruence|].
    change (AClose k l :: t1 ++ ?x :: t3) with ([AClose k l] ++ t1 ++ [x] ++ t3).
    rewrite !count_new_app, Hnew1, Hnew2. reflexivity.
  - destruct (IH (with_transports st1 (js_delete (transports st1) k)))
      as [Hheap2 Hnew2].
    destruct (sigint_loop pending closing _) as [st3 t3]. cbn [fst snd] in *.
    split; [rewrite Hheap2; exact Hheap1|].
    change (AClose k l :: t1 ++ ?x :: t3) with ([AClose k l] ++ t1 ++ [x] ++ t3).
    rewrite !count_new_app, Hnew1, Hnew2. reflexivity.
Qed.

Lemma post_try_heap req run st :
  length (heap (h_state (post_try req run st)))
  = length (heap st) + (if creates_transport (POST req run) then 1 else 0)
  ∧ (∀ l sid, heap st !! l = Some {| sessionId := Some sid |} →
       heap (h_state (post_try req run st)) !! l = Some {| sessionId := Some sid |})
  ∧ count_new (h_trace (post_try req run st))
    = (if creates_transport (POST req run) then 1 else 0).
Proof.
  unfold post_try, creates_transport.
  destruct (truthy_opt (header_session_id req)) eqn:Hhdr; cbn [negb andb].
  - destruct (js_truthy _).
    + destruct (handleRequest_heap
                  (js_get (transports st) (default EmptyString (header_session_id req)))
                  run st) as ((Hlen & Hsid) & Hnew).
      split; [lia|]. by split.
    + cbn. split; [lia|]. by split.
  - destruct (body_is_initialize req); cbn [h_state h_trace].
    + destruct (handleRequest_heap (VTransport (length (heap st))) run
                  {| heap := heap st ++ [ {| sessionId := None |} ];
                     transports := transports st |}) as ((Hlen & Hsid) & Hnew).
      cbn [heap] in *. split; [by rewrite Hlen, length_app|].
      split.
      * intros l sid Hl. apply Hsid. rewrite lookup_app_l; [exact Hl|].
        by apply lookup_lt_Some in Hl.
      * change (ANew ?l :: AConnect ?l' :: ?t) with ([ANew l; AConnect l'] ++ t).
        rewrite count_new_app, Hnew. reflexivity.
    + cbn. split; [lia|]. by split.
Qed.

(** X10: a transport is created only by a POST without session identifier
    whose body is an initialize request, and then exactly one; no other
    request, no close signal and no shutdown creates or discards a
    transport object. *)
Theorem transport_created_only_on_initialize i st :
  count_new (trace (dispatch i st)) = (if creates_transport i then 1 else 0)
  ∧ length (heap (step i st))
    = length (heap st) + (if creates_transport i then 1 else 0).
Proof.
  unfold step. destruct i as [req run|req run|req run|l|closing]; cbn [dispatch].
  - destruct (post_try_heap req run st) as (Hlen & _ & Hnew). unfold post_mcp.
    destruct (h_thrown (post_try req run st)); cbn [final trace]; [|done].
    split; [|exact Hlen]. rewrite count_new_app, Hnew.
    by destruct (negb _); destruct (creates_transport _).
  - unfold get_mcp, creates_transport. destruct (_ || _); cbn [final trace].
    + split; [done|lia].
    + destruct (handleRequest_heap
                  (js_get (transports st) (default EmptyString (header_session_id req)))
                  run st) as ((Hlen & _) & Hnew). split; [done|lia].
  - unfold delete_mcp, creates_transport. destruct (_ || _); cbn [final trace].
    + split; [done|lia].
    + destruct (handleRequest_heap
                  (js_get (transports st) (default EmptyString (header_session_id req)))
                  run st) as ((Hlen & _) & Hnew).
      destruct (h_thrown _); cbn [final trace]; [|split; [done|lia]].
      split; [|lia]. rewrite count_new_app, Hnew. by destruct (negb _).
  - cbn [final trace creates_transport]. rewrite onclose_heap.
    split; [apply count_new_callback, onclose_actions|lia].
  - unfold sigint, creates_transport.
    destruct (sigint_loop_heap (keys (transports st)) closing st) as [Hheap Hnew].
    destruct (sigint_loop _ _ _) as [st' t]. cbn [fst snd final trace] in *.
    split; [|rewrite Hheap; lia].
    change (AConsoleLog ?m :: t ++ ?e) with ([AConsoleLog m] ++ t ++ e).
    rewrite !count_new_app, Hnew. reflexivity.
Qed.

(** X11: in every reachable state a transport is registered under at most
    one identifier, and every registered transport exists: no engine is
    shared between two sessions. *)
Theorem no_transport_shared st k1 k2 l :
  reachable st →
  own_get (transports st) k1 = Some l →
  own_get (transports st) k2 = Some l →
  k1 = k2 ∧ l < length (heap st).
Proof.
  intros Hreach H1 H2. pose proof (reachable_table_ok st Hreach) as Hok.
  destruct (ok_owner st Hok k1 l H1) as (t1 & Ht1 & Hs1).
  destruct (ok_owner st Hok k2 l H2) as (t2 & Ht2 & Hs2).
  split; [|by apply lookup_lt_Some in Ht1]. congruence.
Qed.

Lemma no_transport_shared_witness :
  randomUUID 1 = randomUUID 1 ∧ 1 < length (heap two_sessions).
Proof.
  assert (Hreach : reachable two_sessions)
    by (do 2 apply reachable_step; apply reachable_initial).
  exact (no_transport_shared two_sessions (randomUUID 1) (randomUUID 1) 1
           Hreach eq_refl eq_refl).
Defined.

Lemma failure_trace l evtr msg b run :
  Forall (λ a, is_callback_action a = true) evtr →
  (∀ m e, AConsoleError m e ∈ AHandle l :: evtr ++ failure_tail msg b run
          ↔ m = msg ∧ run_throws run = Some e)
  ∧ (∀ status b', ARespond status b' ∈ AHandle l :: evtr ++ failure_tail msg b run
          ↔ status = 500 ∧ b' = b ∧ is_Some (run_throws run)
            ∧ run_headersSent run = false).
Proof.
  intros Hev. rewrite Forall_forall in Hev. unfold failure_tail. split.
  - intros m e. rewrite elem_of_cons, elem_of_app. split.
    + intros [H|[H|H]]; [discriminate H|by apply Hev in H|].
      destruct (run_throws run) as [e'|]; [|by apply elem_of_nil in H].
      apply elem_of_cons in H as [[= -> ->]|H]; [done|].
      destruct (negb _); [|by apply elem_of_nil in H].
      apply elem_of_cons in H as [H|H]; [discriminate H|by apply elem_of_nil in H].
    + intros [-> ->]. right. right. left.
  - intros status b'. rewrite elem_of_cons, elem_of_app. split.
    + intros [H|[H|H]]; [discriminate H|by apply Hev in H|].
      destruct (run_throws run) as [e'|]; [|by apply elem_of_nil in H].
      apply elem_of_cons in H as [H|H]; [discriminate H|].
      destruct (run_headersSent run); cbn [negb] in H; [by apply elem_of_nil in H|].
      apply elem_of_cons in H as [[= -> ->]|H]; [eauto|by apply elem_of_nil in H].
    + intros (-> & -> & [e He] & Hsent). right. right. rewrite He, Hsent.
      right. left.
Qed.

(** X12: on a POST or DELETE that carries a registered identifier the
    handler never lets an exception escape; it logs an error exactly when
    the transport's handling throws, and the only response server.ts writes
    itself is the 500 of its catch clause, exactly when that handling
    throws before a response was started. *)
Theorem failure_logged_and_answered st req run sid l :
  reachable st →
  header_session_id req = Some sid →
  own_get (transports st) sid = Some l →
  (rejected (post_mcp req run st) = None
   ∧ (∀ m e, AConsoleError m e ∈ trace (post_mcp req run st)
             ↔ m = "Error handling MCP request:" ∧ run_throws run = Some e)
   ∧ (∀ status b, ARespond status b ∈ trace (post_mcp req run st)
             ↔ status = 500 ∧ b = internal_error ∧ is_Some (run_throws run)
               ∧ run_headersSent run = false))
  ∧ (rejected (delete_mcp req run st) = None
     ∧ (∀ m e, AConsoleError m e ∈ trace (delete_mcp req run st)
               ↔ m = "Error handling session termination:" ∧ run_throws run = Some e)
     ∧ (∀ status b, ARespond status b ∈ trace (delete_mcp req run st)
               ↔ status = 500 ∧ b = termination_error ∧ is_Some (run_throws run)
                 ∧ run_headersSent run = false)).
Proof.
  intros Hreach Hhdr Hsid. pose proof (reachable_table_ok st Hreach) as Hok.
  destruct (registered_request st req run sid l Hok Hhdr Hsid)
    as (_ & _ & -> & _ & ->).
  pose proof (events_actions l (run_events run) st) as Hev.
  cbn [rejected trace]. split; (split; [done|]); by apply failure_trace.
Qed.

Lemma failure_logged_and_answered_witness :
  ARespond 500 internal_error
  ∈ trace (post_mcp {| header_session_id := Some (randomUUID 0);
                       body_is_initialize := false |} failing_run one_session).
Proof.
  assert (Hreach : reachable one_session)
    by apply reachable_step, reachable_initial.
  apply (proj2 (proj2 (proj1 (failure_logged_and_answered one_session
           {| header_session_id := Some (randomUUID 0); body_is_initialize := false |}
           failing_run (randomUUID 0) 0 Hreach eq_refl eq_refl)))).
  split; [reflexivity|]. split; [reflexivity|]. split; [|reflexivity].
  exists (ErrorObject "stream failure"). reflexivity.
Defined.

(** X13: main starts the HTTP server exactly for MCP_TRANSPORT=http, the
    stdio server exactly when the variable is unset, empty or stdio, and
    for every other value reports the value and exits with status 1. *)
Theorem main_selects_transport (MCP_TRANSPORT : option string) :
  (Main.main MCP_TRANSPORT = Main.StartHttp ↔ MCP_TRANSPORT = Some "http")
  ∧ (Main.main MCP_TRANSPORT = Main.StartStdio
     ↔ MCP_TRANSPORT = None ∨ MCP_TRANSPORT = Some EmptyString
       ∨ MCP_TRANSPORT = Some "stdio")
  ∧ (∀ message code, Main.main MCP_TRANSPORT = Main.Fail message code
     ↔ ∃ t, MCP_TRANSPORT = Some t ∧ t ≠ EmptyString ∧ t ≠ "http" ∧ t ≠ "stdio"
            ∧ message = "Unknown transport mode: " +:+ t +:+ ". Use 'stdio' or 'http'"
            ∧ code = 1).
Proof.
  unfold Main.main. destruct MCP_TRANSPORT as [[|c t]|]; cbn [truthy_opt truthy_string].
  - rewrite bool_decide_eq_false_2 by discriminate.
    rewrite bool_decide_eq_true_2 by reflexivity.
    split; [split; discriminate|]. split; [split; eauto|].
    intros message code. split; [discriminate|]. by intros (t & [= <-] & Hne & _).
  - cbn [default from_option id]. set (v := String c t).
    destruct (decide (v = "http")) as [Hhttp|Hhttp].
    + rewrite bool_decide_eq_true_2 by done. rewrite Hhttp.
      split; [done|]. split; [split; [discriminate|]|].
      * intros [H|[H|H]]; discriminate H.
      * intros message code. split; [discriminate|].
        by intros (t' & [= <-] & _ & Hne & _).
    + rewrite bool_decide_eq_false_2 by done.
      destruct (decide (v = "stdio")) as [Hstdio|Hstdio].
      * rewrite bool_decide_eq_true_2 by done. rewrite Hstdio.
        split; [split; discriminate|]. split; [split; eauto|].
        intros message code. split; [discriminate|].
        by intros (t' & [= <-] & _ & _ & Hne & _).
      * rewrite bool_decide_eq_false_2 by done.
        split; [split; [discriminate|congruence]|].
        split; [split; [discriminate|]|].
        -- intros [H|[H|H]]; [discriminate H|discriminate H|congruence].
        -- intros message code. split.
           ++ intros [= <- <-]. exists v. by repeat split.
           ++ by intros (t' & [= <-] & _ & _ & _ & -> & ->).
  - rewrite bool_decide_eq_false_2 by discriminate.
    rewrite bool_decide_eq_true_2 by reflexivity.
    split; [split; discriminate|]. split; [split; eauto|].
    intros message code. split; [discriminate|]. by intros (t & [=] & _).
Qed.

End TransportsAndFailures.

(* ===================================================================== *)
(* 16. The initialize call                                                *)
(* ===================================================================== *)

Section Initialize.
Import Http.
Implicit Types (st : Server) (k sid : string) (l : loc).











End Initialize.

(* ===================================================================== *)
(* 17. Failures, as the client sees them                                  *)
(* ===================================================================== *)

Section Served.
Import Http.
Implicit Types (st : Server) (k sid : string) (l : loc).

Lemma handleRequest_quiet v run st :
  Forall (λ a, is_response a = false) (h_trace (handleRequest v run st)).
Proof.
  destruct v as [l| |]; cbn [handleRequest]; [|constructor..].
  pose proof (events_actions l (run_events run) st) as Hact.
  destruct (sdk_events l (run_events run) st) as [st' tr]. cbn [snd h_trace] in *.
  constructor; [done|]. eapply Forall_impl; [exact Hact|]. by intros [].
Qed.

Lemma attempt_quiet m req run st error :
  h_thrown (attempt m req run st) = Some error →
  Forall (λ a, is_response a = false) (h_trace (attempt m req run st)).
Proof.
  destruct m; cbn [attempt].
  - unfold post_try. destruct (_ && _); [intros _; apply handleRequest_quiet|].
    destruct (_ && _); [|discriminate]. cbn [h_thrown h_trace]. intros _.
    do 2 (constructor; [done|]). apply handleRequest_quiet.
  - destruct (_ || _); [discriminate|]. intros _. apply handleRequest_quiet.
  - destruct (_ || _); [discriminate|]. intros _. apply handleRequest_quiet.
Qed.

Lemma response_in_tail t tail status b :
  Forall (λ a, is_response a = false) t →
  ARespond status b ∈ t ++ tail ↔ ARespond status b ∈ tail.
Proof.
  intros Hq. rewrite elem_of_app. split; [|by right].
  intros [Hin|Hin]; [|done]. rewrite Forall_forall in Hq. by apply Hq in Hin.
Qed.

(** A failed attempt, as the server turns it into its answer. *)
Lemma serve_failure app m req run st error :
  h_thrown (attempt m req run st) = Some error →
  serve app m req run st
  = {| final := h_state (attempt m req run st);
       trace := h_trace (attempt m req run st)
                ++ match m with
                   | MPost => [AConsoleError "Error handling MCP request:" error]
                   | MGet => if logs_errors app then [AConsoleError EmptyString error]
                             else []
                   | MDelete =>
                       [AConsoleError "Error handling session termination:" error]
                   end
                ++ (if negb (h_headersSent (attempt m req run st))
                    then [ARespond 500 (failure_body app m error)] else []);
       rejected := None |}.
Proof.
  unfold serve. destruct m; cbn [attempt handler failure_body].
  - intros Hthrown. unfold post_mcp. rewrite Hthrown. reflexivity.
  - unfold get_mcp. destruct (_ || _); [discriminate|]. intros Hthrown.
    unfold express. cbn [rejected final trace]. rewrite Hthrown. reflexivity.
  - unfold delete_mcp. destruct (_ || _); [discriminate|]. intros Hthrown.
    rewrite Hthrown. reflexivity.
Qed.

(** C7: whenever the handling of a POST, GET or DELETE fails, nothing
    escapes the server; it answers with status 500 if and only if no
    response had been started, and that 500 is the only response it
    writes, so that after a started response nothing further is written;
    the failure is logged (on GET by the application, provided it logs
    errors at all). *)
Theorem failure_answered_with_500 app m req run st error :
  h_thrown (attempt m req run st) = Some error →
  rejected (serve app m req run st) = None
  ∧ final (serve app m req run st) = h_state (attempt m req run st)
  ∧ (∀ status b,
       ARespond status b ∈ trace (serve app m req run st)
       ↔ status = 500 ∧ b = failure_body app m error
         ∧ h_headersSent (attempt m req run st) = false)
  ∧ ((m = MGet → logs_errors app = true) →
     ∃ msg, AConsoleError msg error ∈ trace (serve app m req run st)).
Proof.
  intros Hthrown. rewrite (serve_failure app m req run st error Hthrown).
  cbn [rejected final trace]. split; [done|]. split; [done|].
  pose proof (attempt_quiet m req run st error Hthrown) as Hquiet. split.
  - intros status b. rewrite (response_in_tail _ _ _ _ Hquiet), elem_of_app.
    split.
    + intros [Hin|Hin].
      * destruct m; [| destruct (logs_errors app) |];
          repeat (apply elem_of_cons in Hin as [Hin|Hin]; [discriminate Hin|]);
          by apply elem_of_nil in Hin.
      * destruct (h_headersSent _); cbn [negb] in Hin; [by apply elem_of_nil in Hin|].
        apply elem_of_cons in Hin as [[= -> ->]|Hin]; [done|by apply elem_of_nil in Hin].
    + intros (-> & -> & ->). right. left.
  - intros Hlogs. destruct m.
    + eexists. apply elem_of_app. right. apply elem_of_app. left. left.
    + rewrite Hlogs by done. eexists. apply elem_of_app. right.
      apply elem_of_app. left. left.
    + eexists. apply elem_of_app. right. apply elem_of_app. left. left.
Qed.

Lemma failure_answered_with_500_witness :
  h_thrown (attempt MGet {| header_session_id := Some (randomUUID 0);
                            body_is_initialize := false |} failing_run one_session)
  = Some (ErrorObject "stream failure")
  ∧ ARespond 500 (PlainText "Internal Server Error")
    ∈ trace (serve default_app MGet
               {| header_session_id := Some (randomUUID 0);
                  body_is_initialize := false |} failing_run one_session).
Proof.
  split; [reflexivity|].
  apply (proj1 (proj2 (proj2 (failure_answered_with_500 default_app MGet
           {| header_session_id := Some (randomUUID 0); body_is_initialize := false |}
           failing_run one_session (ErrorObject "stream failure") eq_refl)))).
  by repeat split.
Defined.

End Served.
